(** * KPackage::PackageLoader — a shallow embedding and its properties

    The development follows [src/kpackage/packageloader.cpp]:
    the process-wide loader pointer ([setPackageLoader], [self]), the
    three public operations ([loadPackage], [listPackages],
    [loadPackageStructure]) and the structure cache they share.

    Everything the C++ code obtains from the outside (Qt's search paths,
    the files on disk, KCoreAddons' metadata class, the plugin factories)
    is gathered in an environment; every access to it is recorded as an
    event, so that statements such as "the index is not read again" are
    statements about the events a call produces. *)

From stdpp Require Import base option list strings gmap.
From Stdlib Require Import Ascii String.

Local Open Scope string_scope.
Local Open Scope list_scope.
Local Open Scope stdpp_scope.

(** ** QString helpers *)

(** [QString::isEmpty]. *)
Definition isEmpty (s : string) : bool :=
  match s with
  | EmptyString => true
  | String _ _ => false
  end.

(** [QString::endsWith(QChar)]. *)
Fixpoint endsWith (s : string) (c : ascii) : bool :=
  match s with
  | EmptyString => false
  | String a EmptyString => Ascii.eqb a c
  | String _ rest => endsWith rest c
  end.

(** [QStringList::contains]. *)
Definition contains (l : list string) (x : string) : bool :=
  existsb (String.eqb x) l.

(** The file name both discovery loops append to a directory string. *)
Definition kpluginindex : string := "kpluginindex.json".

(** The reserved format served by the built-in [GenericPackage]. *)
Definition genericFormat : string := "KPackage/Generic".

(** ** KCoreAddons: plugin metadata

    [KPluginMetaData] and [QJsonObject] belong to libraries the loader
    links against; the loader only uses the operations below. *)
Class KCoreAddons := {
  QJsonObject : Type;
  KPluginMetaData : Type;
  (** [obj.value("FileName").toString()] *)
  json_FileName : QJsonObject → string;
  (** [KPluginMetaData(obj, pluginFile, metaDataFile)]; the two-argument
      constructor is the case [metaDataFile = ""]. *)
  metaFromJson : QJsonObject → string → string → KPluginMetaData;
  pluginId : KPluginMetaData → string;
  fileName : KPluginMetaData → string;
  serviceTypes : KPluginMetaData → list string;
  isValid : KPluginMetaData → bool
}.

(** ** Handlers, packages, loaders *)

(** Where a [PackageStructure] object comes from. *)
Inductive Origin :=
| BuiltinGeneric
| FromPlugin (file : string).

(** A [PackageStructure] object on the heap: its origin and the default
    package root its [initPackage] declares. *)
Record PackageStructure := {
  origin : Origin;
  declaredRoot : string
}.

(** Modelled from the spec: the [Package] class (package.cpp is not part
    of the sources at hand).  A package wraps a reference to a structure
    handler (possibly null) together with an optional path. *)
Record Package := {
  pkg_structure : option nat;
  pkg_path : string
}.

(** [Package()] *)
Definition Package_invalid : Package :=
  {| pkg_structure := None; pkg_path := "" |}.

(** [Package(structure)] *)
Definition Package_of (structure : nat) : Package :=
  {| pkg_structure := Some structure; pkg_path := "" |}.

Definition hasValidStructure (p : Package) : bool :=
  match pkg_structure p with
  | Some _ => true
  | None => false
  end.

Definition setPath (p : Package) (path : string) : Package :=
  {| pkg_structure := pkg_structure p; pkg_path := path |}.

(** A [PackageLoader] object: the fields of [PackageLoaderPrivate] the
    operations use, and the virtual [internalLoadPackage]. *)
Record PackageLoader := {
  structures : gmap string (option nat);
  isDefaultLoader : bool;
  internalLoadPackage : string → Package
}.

(** [PackageLoader::internalLoadPackage] of the base class. *)
Definition base_internalLoadPackage (name : string) : Package :=
  Package_invalid.

(** The constructor: an empty cache, [isDefaultLoader(false)].  A subclass
    supplies its own [internalLoadPackage]. *)
Definition PackageLoader_new (hook : string → Package) : PackageLoader :=
  {| structures := ∅; isDefaultLoader := false; internalLoadPackage := hook |}.

(** ** Events: every access to the outside world *)
Inductive Event :=
| IndexExists (path : string)   (* QFile(path).exists() *)
| IndexRead (path : string)     (* open, readAll, fromBinaryData *)
| FindPlugins (dir : string)    (* KPluginLoader::findPlugins(dir) *)
| DirIterate (dir : string)     (* QDirIterator over metadata.desktop *)
| PluginLoad (file : string)    (* KPluginLoader(file).factory() *)
| Hook (format : string)        (* internalLoadPackage(format) *)
| Warning (format : string).    (* qWarning() *)

#[global] Instance Event_eq_dec : EqDecision Event.
Proof. solve_decision. Defined.

(** What [KPluginLoader(file).factory()] and [factory->create] give. *)
Inductive FactoryOutcome :=
| NoFactory                    (* factory() is null *)
| CreateFails                  (* create<PackageStructure> is null *)
| Creates (root : string).     (* a new handler declaring [root] *)

Section Loader.
Context `{K : KCoreAddons}.

(** ** The environment *)
Record Env := {
  (** [QDir::separator()] *)
  separator : ascii;
  (** [QCoreApplication::libraryPaths()] *)
  libraryPaths : list string;
  (** [QStandardPaths::standardLocations(GenericDataLocation)] *)
  dataLocations : list string;
  (** the file at a path: [None] when it does not exist, otherwise the
      array [QJsonDocument::fromBinaryData(..).array()] decodes to *)
  indexFile : string → option (list QJsonObject);
  (** [KPluginLoader::findPlugins(dir)] *)
  findPlugins : string → list KPluginMetaData;
  (** the [metadata.desktop] files below a directory, each read as
      [KPluginMetaData(path)] *)
  desktopFiles : string → list KPluginMetaData;
  (** the plugin module at a path *)
  factory : string → FactoryOutcome;
  (** the default package root [GenericPackage::initPackage] declares *)
  genericRoot : string
}.

(** ** The state the operations run in *)
Record State := {
  this : PackageLoader;
  (** the live [PackageStructure] objects, by address *)
  heap : gmap nat PackageStructure;
  (** the next address [new] hands out *)
  next : nat
}.

(** A computation returns a value, the new state and the events it
    produced, in order. *)
Definition M (A : Type) : Type := State → A * State * list Event.

Definition ret {A} (a : A) : M A := λ s, (a, s, []).

Definition bind {A B} (m : M A) (k : A → M B) : M B :=
  λ s, let '(a, s1, e1) := m s in
       let '(b, s2, e2) := k a s1 in
       (b, s2, e1 ++ e2).

Definition emit (e : Event) : M unit := λ s, (tt, s, [e]).

(** The three components of a finished call. *)
Definition result {A} (x : A * State * list Event) : A := x.1.1.
Definition after {A} (x : A * State * list Event) : State := x.1.2.
Definition events {A} (x : A * State * list Event) : list Event := x.2.

End Loader.

Notation "'do' x <- m ; k" := (bind m (λ x, k))
  (at level 10, x name, m at level 100, k at level 200, only parsing).
Notation "m ;; k" := (bind m (λ _, k))
  (at level 100, k at level 200, right associativity, only parsing).

Section Operations.
Context `{K : KCoreAddons}.
Variable E : Env.

(** [new T(...)]: a fresh address holding the object. *)
Definition alloc (obj : PackageStructure) : M nat :=
  λ s, (next s,
        {| this := this s; heap := <[next s := obj]> (heap s); next := S (next s) |},
        []).

(** [d->structures.value(format).data()]: a missing entry, a null entry
    and an entry whose object has been destroyed all read as null. *)
Definition cachedStructure (s : State) (format : string) : option nat :=
  match structures (this s) !! format with
  | Some (Some a) => if decide (is_Some (heap s !! a)) then Some a else None
  | _ => None
  end.

Definition structures_value (format : string) : M (option nat) :=
  λ s, (cachedStructure s format, s, []).

(** [d->structures.insert(format, structure)] *)
Definition structures_insert (format : string) (structure : option nat) : M unit :=
  λ s, (tt,
        {| this := {| structures := <[format := structure]> (structures (this s));
                      isDefaultLoader := isDefaultLoader (this s);
                      internalLoadPackage := internalLoadPackage (this s) |};
           heap := heap s; next := next s |},
        []).

(** [new GenericPackage()] *)
Definition GenericPackage : PackageStructure :=
  {| origin := BuiltinGeneric; declaredRoot := genericRoot E |}.

(** Lines 269-274 of [loadPackageStructure] and, word for word, lines
    193-198 of [listPackages]: the cached handler, else a new
    [GenericPackage] for the reserved format, else null. *)
Definition cachedOrGeneric (packageFormat : string) : M (option nat) :=
  do structure <- structures_value packageFormat;
  match structure with
  | Some _ => ret structure
  | None =>
      if String.eqb packageFormat genericFormat
      then do a <- alloc GenericPackage; ret (Some a)
      else ret None
  end.

(** Lines 276-286: one plugin directory per library path, always ending
    in a separator. *)
Definition subDirectory : string := "kpackage/packagestructure".

Definition pluginDirectory (dir : string) : string :=
  let d := dir +:+ String (separator E) "" +:+ subDirectory in
  if endsWith d (separator E) then d else d +:+ String (separator E) "".

Definition pluginDirectories : list string :=
  map pluginDirectory (libraryPaths E).

(** The inner loops of lines 302-310 and 314-320: the first record whose
    plugin id is the format, if any ([break]). *)
Fixpoint firstInIndex (packageFormat : string) (plugins : list QJsonObject)
  : option string :=
  match plugins with
  | [] => None
  | obj :: rest =>
      let candidate := json_FileName obj in
      if String.eqb (pluginId (metaFromJson obj candidate "")) packageFormat
      then Some candidate
      else firstInIndex packageFormat rest
  end.

Fixpoint firstInPlugins (packageFormat : string) (plugins : list KPluginMetaData)
  : option string :=
  match plugins with
  | [] => None
  | md :: rest =>
      if String.eqb (pluginId md) packageFormat
      then Some (fileName md)
      else firstInPlugins packageFormat rest
  end.

(** The body of the loop of lines 291-322 for one directory:
    [pluginFileName] is assigned when the directory has a match and left
    alone otherwise. *)
Definition probeStructureDir (packageFormat : string)
    (pluginFileName : string) (plugindir : string) : M string :=
  let _ixfile := plugindir +:+ kpluginindex in
  emit (IndexExists _ixfile);;
  match indexFile E _ixfile with
  | Some plugins =>
      emit (IndexRead _ixfile);;
      ret (default pluginFileName (firstInIndex packageFormat plugins))
  | None =>
      emit (FindPlugins plugindir);;
      ret (default pluginFileName
             (firstInPlugins packageFormat (findPlugins E plugindir)))
  end.

(** [Q_FOREACH]: the body runs for every element, in order. *)
Fixpoint foreach {A B} (body : B → A → M B) (acc : B) (l : list A) : M B :=
  match l with
  | [] => ret acc
  | x :: rest => do acc' <- body acc x; foreach body acc' rest
  end.

(** Lines 324-335. The second component is [!error.isEmpty()]. *)
Definition instantiate (pluginFileName : string) (structure : option nat)
  : M (option nat * bool) :=
  if isEmpty pluginFileName then ret (structure, false)
  else
    emit (PluginLoad pluginFileName);;
    match factory E pluginFileName with
    | NoFactory => ret (structure, false)
    | CreateFails => ret (None, true)
    | Creates root =>
        do a <- alloc {| origin := FromPlugin pluginFileName; declaredRoot := root |};
        ret (Some a, false)
    end.

(** [PackageLoader::loadPackageStructure], lines 267-345. *)
Definition loadPackageStructure (packageFormat : string) : M (option nat) :=
  do structure <- cachedOrGeneric packageFormat;
  do pluginFileName <- foreach (probeStructureDir packageFormat) "" pluginDirectories;
  do r <- instantiate pluginFileName structure;
  let '(structure, error) := r in
  (if bool_decide (is_Some structure) && error
   then emit (Warning packageFormat) else ret tt);;
  structures_insert packageFormat structure;;
  ret structure.


(** [PackageLoader::loadPackage], lines 151-182. *)
Definition loadPackage (packageFormat packagePath : string) : M Package :=
  do hooked <-
    (λ s,
       if isDefaultLoader (this s) then ret None s
       else
         (emit (Hook packageFormat);;
          let p := internalLoadPackage (this s) packageFormat in
          if hasValidStructure p
          then ret (Some (if isEmpty packagePath then p else setPath p packagePath))
          else ret None) s);
  match hooked with
  | Some p => ret p
  | None =>
      if isEmpty packageFormat then ret Package_invalid
      else
        do structure <- loadPackageStructure packageFormat;
        match structure with
        | Some a =>
            let p := Package_of a in
            ret (if isEmpty packagePath then p else setPath p packagePath)
        | None => ret Package_invalid
        end
  end.

(** [Package p(structure); p.defaultPackageRoot()]: the root the handler
    declares. *)
Definition defaultPackageRoot (structure : nat) : M string :=
  λ s, (default "" (declaredRoot <$> heap s !! structure), s, []).

(** Lines 193-202 of [listPackages]: the structure the root is taken
    from. *)
Definition structureForRoot (packageFormat : string) : M (option nat) :=
  do structure <- cachedOrGeneric packageFormat;
  match structure with
  | Some _ => ret structure
  | None => loadPackageStructure packageFormat
  end.

(** Lines 192-210 of [listPackages]. *)
Definition rootFromStructure (packageFormat : string) : M string :=
  do structure <- structureForRoot packageFormat;
  match structure with
  | Some a =>
      structures_insert packageFormat (Some a);;
      defaultPackageRoot a
  | None => ret ""
  end.

(** The two branches of lines 223-261 for one directory. *)
Definition fromIndex (plugins : list QJsonObject) : list KPluginMetaData :=
  filter (λ m, isValid m = true)
    (map (λ obj, metaFromJson obj "" (json_FileName obj)) plugins).

Definition fromScan (packageFormat : string) (plugindir : string)
  : list KPluginMetaData :=
  filter (λ info, isValid info
                  && (isEmpty packageFormat
                      || contains (serviceTypes info) packageFormat) = true)
    (desktopFiles E plugindir).

(** The body of the loop of lines 217-262 for one data location. *)
Definition listLocation (packageFormat actualRoot : string)
    (lst : list KPluginMetaData) (datadir : string) : M (list KPluginMetaData) :=
  let plugindir := datadir +:+ "/" +:+ actualRoot in
  let _ixfile := plugindir +:+ kpluginindex in
  emit (IndexExists _ixfile);;
  match indexFile E _ixfile with
  | Some plugins =>
      emit (IndexRead _ixfile);;
      ret (lst ++ fromIndex plugins)
  | None =>
      emit (DirIterate plugindir);;
      ret (lst ++ fromScan packageFormat plugindir)
  end.

(** [PackageLoader::listPackages], lines 184-265. *)
Definition listPackages (packageFormat packageRoot : string)
  : M (list KPluginMetaData) :=
  do actualRoot <-
    (if isEmpty packageRoot then rootFromStructure packageFormat
     else ret packageRoot);
  let actualRoot := if isEmpty actualRoot then packageFormat else actualRoot in
  foreach (listLocation packageFormat actualRoot) [] (dataLocations E).

End Operations.

(** ** What the loops compute

    Closed forms of the two search loops, used to state their properties:
    what one directory contributes, and what the whole search path gives. *)
Section Discovery.
Context `{K : KCoreAddons}.
Variable E : Env.

(** The module path one plugin directory offers for a format. *)
Definition dirMatch (packageFormat plugindir : string) : option string :=
  match indexFile E (plugindir +:+ kpluginindex) with
  | Some plugins => firstInIndex packageFormat plugins
  | None => firstInPlugins packageFormat (findPlugins E plugindir)
  end.

(** The file-system accesses probing one plugin directory makes. *)
Definition structureDirEvents (plugindir : string) : list Event :=
  let _ixfile := plugindir +:+ kpluginindex in
  [IndexExists _ixfile;
   match indexFile E _ixfile with
   | Some _ => IndexRead _ixfile
   | None => FindPlugins plugindir
   end].

(** The last directory of the list that has a match. *)
Fixpoint lastMatching (packageFormat : string) (dirs : list string)
  : option string :=
  match dirs with
  | [] => None
  | d :: rest =>
      match lastMatching packageFormat rest with
      | Some file => Some file
      | None => dirMatch packageFormat d
      end
  end.

(** [pluginFileName] after the loop of lines 291-322. *)
Definition selectedFile (packageFormat : string) : string :=
  default "" (lastMatching packageFormat (pluginDirectories E)).

(** The accesses of lines 324-335. *)
Definition loadEvents (pluginFileName : string) : list Event :=
  if isEmpty pluginFileName then [] else [PluginLoad pluginFileName].

(** Every access one run of the discovery and instantiation steps makes. *)
Definition discoveryEvents (packageFormat : string) : list Event :=
  flat_map structureDirEvents (pluginDirectories E)
  ++ loadEvents (selectedFile packageFormat).

(** What one package directory contributes to a listing. *)
Definition listDir (packageFormat plugindir : string) : list KPluginMetaData :=
  match indexFile E (plugindir +:+ kpluginindex) with
  | Some plugins => fromIndex plugins
  | None => fromScan E packageFormat plugindir
  end.

Definition listDirEvents (plugindir : string) : list Event :=
  let _ixfile := plugindir +:+ kpluginindex in
  [IndexExists _ixfile;
   match indexFile E _ixfile with
   | Some _ => IndexRead _ixfile
   | None => DirIterate plugindir
   end].

(** The directories [listPackages] probes for a root. *)
Definition packageDirectories (actualRoot : string) : list string :=
  map (λ datadir, datadir +:+ "/" +:+ actualRoot) (dataLocations E).

(** ** The discovery loop as the specification words it

    "The first directory (in search-path order) that yields a match wins;
    later directories are not consulted once a module path is found." *)
Fixpoint firstMatching (packageFormat : string) (dirs : list string)
  : option string :=
  match dirs with
  | [] => None
  | d :: rest =>
      match dirMatch packageFormat d with
      | Some file => Some file
      | None => firstMatching packageFormat rest
      end
  end.

Fixpoint consultedUntilMatch (packageFormat : string) (dirs : list string)
  : list string :=
  match dirs with
  | [] => []
  | d :: rest =>
      d :: match dirMatch packageFormat d with
           | Some _ => []
           | None => consultedUntilMatch packageFormat rest
           end
  end.

(** The accesses of a call in which the first matching directory decides
    and ends the search. *)
Definition firstMatchEvents (packageFormat : string) : list Event :=
  flat_map structureDirEvents
    (consultedUntilMatch packageFormat (pluginDirectories E))
  ++ loadEvents (default "" (firstMatching packageFormat (pluginDirectories E))).

Definition FirstDirectoryWins (packageFormat : string) (s : State) : Prop :=
  events (loadPackageStructure E packageFormat s) = firstMatchEvents packageFormat.

(** "Two consecutive calls return the same handler; the second call does
    not repeat the filesystem discovery." *)
Definition SecondCallFromCache (packageFormat : string) (s : State) : Prop :=
  let first := loadPackageStructure E packageFormat s in
  let second := loadPackageStructure E packageFormat (after first) in
  is_Some (result first) →
  result second = result first ∧ events second = [].

(** "Repeat calls for an unresolvable format short-circuit at Step 1
    without repeating discovery." *)
Definition NullResultShortCircuits (packageFormat : string) (s : State) : Prop :=
  let first := loadPackageStructure E packageFormat s in
  let second := loadPackageStructure E packageFormat (after first) in
  structures (this (after first)) !! packageFormat = Some (result first)
  ∧ (result first = None → result second = None ∧ events second = []).

(** "Resolving the reserved generic-format identifier always yields a
    valid handler without touching the filesystem", and caches it. *)
Definition GenericWithoutDiscovery (s : State) : Prop :=
  let call := loadPackageStructure E genericFormat s in
  (∃ a, result call = Some a
        ∧ origin <$> heap (after call) !! a = Some BuiltinGeneric
        ∧ structures (this (after call)) !! genericFormat = Some (Some a))
  ∧ events call = [].

(** The root [listPackages] lists under. *)
Definition actualRootOf (packageFormat packageRoot : string) (s : State) : string :=
  let root :=
    if isEmpty packageRoot then result (rootFromStructure E packageFormat s)
    else packageRoot in
  if isEmpty root then packageFormat else root.

(** The file [kpluginindex.json] inside a directory, whether or not the
    directory string ends with the separator. *)
Definition indexIn (sep : ascii) (dir : string) : string :=
  if endsWith dir sep then dir +:+ kpluginindex
  else dir +:+ String sep "" +:+ kpluginindex.

(** "When an index file is present in a directory, directory-scanning
    logic for that same directory is never invoked", for the directories
    of either operation. *)
Definition IndexedDirectoryNeverScanned (packageFormat packageRoot : string)
    (s : State) : Prop :=
  (∀ d, is_Some (indexFile E (indexIn (separator E) d)) →
     FindPlugins d ∉ events (loadPackageStructure E packageFormat s))
  ∧ (∀ d, is_Some (indexFile E (indexIn "/" d)) →
       DirIterate d ∉ events (listPackages E packageFormat packageRoot s)).

(** "When a directory has an index file, every valid record decoded from
    the index is included in the result", whatever its service types. *)
Definition IndexedRecordsAllListed (packageFormat packageRoot : string)
    (s : State) : Prop :=
  ∀ datadir plugins obj,
    datadir ∈ dataLocations E →
    indexFile E (indexIn "/" (datadir +:+ "/"
                              +:+ actualRootOf packageFormat packageRoot s))
    = Some plugins →
    obj ∈ plugins →
    isValid (metaFromJson obj "" (json_FileName obj)) = true →
    metaFromJson obj "" (json_FileName obj)
      ∈ result (listPackages E packageFormat packageRoot s).

End Discovery.

(** ** The process-wide loader pointer *)

(** [s_packageTrader] together with the loader objects it may point to. *)
Record Process := {
  s_packageTrader : option nat;
  loaders : gmap nat PackageLoader;
  nextLoader : nat
}.

(** [PackageLoader::setPackageLoader], lines 127-136.  The argument is a
    pointer and may be null. *)
Definition setPackageLoader (loader : option nat) (p : Process) : Process :=
  match s_packageTrader p with
  | None =>
      {| s_packageTrader := loader; loaders := loaders p; nextLoader := nextLoader p |}
  | Some _ => p
  end.

(** [PackageLoader::self], lines 138-149. *)
Definition self (p : Process) : nat * Process :=
  match s_packageTrader p with
  | None =>
      let a := nextLoader p in
      let l := {| structures := structures (PackageLoader_new base_internalLoadPackage);
                  isDefaultLoader := true;
                  internalLoadPackage := base_internalLoadPackage |} in
      (a, {| s_packageTrader := Some a;
             loaders := <[a := l]> (loaders p);
             nextLoader := S a |})
  | Some a => (a, p)
  end.

(** What a program does with the pointer: install a loader, ask for the
    loader, or run some method on the loader [self()] returns. *)
Inductive Call :=
| CallSet (loader : option nat)
| CallSelf
| CallOnSelf (method : PackageLoader → PackageLoader).

Definition call (c : Call) (p : Process) : Process :=
  match c with
  | CallSet loader => setPackageLoader loader p
  | CallSelf => (self p).2
  | CallOnSelf method =>
      let '(a, p') := self p in
      {| s_packageTrader := s_packageTrader p';
         loaders := alter method a (loaders p');
         nextLoader := nextLoader p' |}
  end.

Definition calls (cs : list Call) (p : Process) : Process :=
  fold_left (λ p c, call c p) cs p.

(** ** The destructor *)

(** [delete wp.data()]: a null pointer, or one whose object is gone,
    deletes nothing. *)
Definition deleteStructure (wp : option nat) (h : gmap nat PackageStructure)
  : gmap nat PackageStructure :=
  match wp with
  | Some a => delete a h
  | None => h
  end.

(** [PackageLoader::~PackageLoader], lines 119-125: the loop over the
    entries of [d->structures]; what is returned is the heap it leaves. *)
Definition PackageLoader_delete (s : State) : gmap nat PackageStructure :=
  fold_left (λ h entry, deleteStructure entry.2 h)
    (map_to_list (structures (this s))) (heap s).

(** ** The static helpers of [PackageLoaderPrivate] *)

(** [QChar::toLower] and [QString::toLower] on the ASCII range. *)
Definition toLower_ascii (c : ascii) : ascii :=
  let n := nat_of_ascii c in
  if (65 <=? n)%nat && (n <=? 90)%nat then ascii_of_nat (n + 32) else c.

Fixpoint toLower (s : string) : string :=
  match s with
  | EmptyString => EmptyString
  | String c rest => String (toLower_ascii c) (toLower rest)
  end.

(** The names of lines 76-95, as [I18N_NOOP] leaves them. *)
Definition categoryNames : list string :=
  ["Accessibility"; "Application Launchers"; "Astronomy"; "Date and Time";
   "Development Tools"; "Education"; "Environment and Weather"; "Examples";
   "File System"; "Fun and Games"; "Graphics"; "Language"; "Mapping";
   "Miscellaneous"; "Multimedia"; "Online Services"; "Productivity";
   "System Information"; "Utilities"; "Windows and Tasks"].

(** [PackageLoaderPrivate::knownCategories], lines 71-97: the custom
    categories, and each name of the list inserted in lower case. *)
Definition knownCategories (s_customCategories : gset string) : gset string :=
  fold_left (λ categories name, {[toLower name]} ∪ categories)
    categoryNames s_customCategories.

(** [QString::arg] for a template whose only place marker is [%1]. *)
Fixpoint arg (template a : string) : string :=
  match template with
  | String "%" (String "1" rest) => a +:+ arg rest a
  | String c rest => String c (arg rest a)
  | EmptyString => EmptyString
  end.

(** [PackageLoaderPrivate::parentAppConstraint], lines 99-112.  [app] is
    the name of [QCoreApplication::instance()], [None] when there is no
    instance. *)
Definition parentAppConstraint (app : option string) (parentApp : string) : string :=
  if isEmpty parentApp then
    match app with
    | None => ""
    | Some applicationName =>
        arg "((not exist [X-KDE-ParentApp] or [X-KDE-ParentApp] == '') or [X-KDE-ParentApp] == '%1')"
          applicationName
    end
  else arg "[X-KDE-ParentApp] == '%1'" parentApp.

(** ** Notions used to state invariants *)

(** Every address in use lies below the next one [new] hands out. *)
Definition fresh_next (s : State) : Prop :=
  ∀ a, is_Some (heap s !! a) → a < next s.

(** What every operation on a format keeps: the loader's flag and hook,
    the cache entries of other formats, the presence of cache entries, the
    liveness of handlers, and, when the next address is fresh, the handlers
    themselves. *)
Definition keeps (packageFormat : string) (s s' : State) : Prop :=
  isDefaultLoader (this s') = isDefaultLoader (this s)
  ∧ internalLoadPackage (this s') = internalLoadPackage (this s)
  ∧ (∀ f, f ≠ packageFormat → structures (this s') !! f = structures (this s) !! f)
  ∧ (∀ f, is_Some (structures (this s) !! f) → is_Some (structures (this s') !! f))
  ∧ (∀ a, is_Some (heap s !! a) → is_Some (heap s' !! a))
  ∧ (fresh_next s →
     fresh_next s' ∧ ∀ a obj, heap s !! a = Some obj → heap s' !! a = Some obj).

Section Advertised.
Context `{K : KCoreAddons}.
Variable E : Env.

(** A plugin directory has a record with the format as its plugin id and
    the file as its module: in its index when it has one, among the
    plugins found in it otherwise. *)
Definition advertises (packageFormat plugindir file : string) : Prop :=
  match indexFile E (plugindir +:+ kpluginindex) with
  | Some plugins =>
      ∃ obj, obj ∈ plugins ∧ json_FileName obj = file
             ∧ pluginId (metaFromJson obj (json_FileName obj) "") = packageFormat
  | None =>
      ∃ md, md ∈ findPlugins E plugindir ∧ fileName md = file
            ∧ pluginId md = packageFormat
  end.

(** No module can be loaded for the format: the discovery selects no
    file, or the file it selects has no factory. *)
Definition noModule (packageFormat : string) : Prop :=
  isEmpty (selectedFile E packageFormat) = true
  ∨ factory E (selectedFile E packageFormat) = NoFactory.

End Advertised.

(** ** A concrete metadata library and concrete installations

    Used to run the operations on explicit inputs. *)
Module Sample.

Record Json := {
  j_FileName : string;
  j_Id : string;
  j_ServiceTypes : list string
}.

Record Meta := {
  m_fileName : string;
  m_metaDataFileName : string;
  m_pluginId : string;
  m_serviceTypes : list string
}.

#[export] Instance addons : KCoreAddons := {|
  QJsonObject := Json;
  KPluginMetaData := Meta;
  json_FileName := j_FileName;
  metaFromJson obj file metaFile :=
    {| m_fileName := file; m_metaDataFileName := metaFile;
       m_pluginId := j_Id obj; m_serviceTypes := j_ServiceTypes obj |};
  pluginId := m_pluginId;
  fileName := m_fileName;
  serviceTypes := m_serviceTypes;
  isValid m := negb (isEmpty (m_pluginId m))
|}.

(** Nothing installed anywhere, no search path at all. *)
Definition bare : Env := {|
  separator := "/"%char;
  libraryPaths := [];
  dataLocations := [];
  indexFile _ := None;
  findPlugins _ := [];
  desktopFiles _ := [];
  factory _ := NoFactory;
  genericRoot := "kpackage/generic/"
|}.

(** A loader before its first call, with the base-class hook. *)
Definition fresh : State := {|
  this := PackageLoader_new base_internalLoadPackage;
  heap := ∅;
  next := 0
|}.

Definition fooRecord (file : string) : Json :=
  {| j_FileName := file; j_Id := "foo.bar"; j_ServiceTypes := [] |}.

(** One library path whose plugin directory has an index listing
    [foo.bar], provided by a module with the given behaviour. *)
Definition oneIndexed (outcome : FactoryOutcome) : Env := {|
  separator := "/"%char;
  libraryPaths := ["/usr/lib/plugins"];
  dataLocations := ["/usr/share"];
  indexFile path :=
    if String.eqb path "/usr/lib/plugins/kpackage/packagestructure/kpluginindex.json"
    then Some [fooRecord "foo.so"] else None;
  findPlugins _ := [];
  desktopFiles _ := [];
  factory file := if String.eqb file "foo.so" then outcome else NoFactory;
  genericRoot := "kpackage/generic/"
|}.

(** Two library paths; both plugin directories have an index listing
    [foo.bar], the first through [a.so], the second through [b.so]. *)
Definition twoIndexed : Env := {|
  separator := "/"%char;
  libraryPaths := ["/opt/a"; "/opt/b"];
  dataLocations := ["/usr/share"];
  indexFile path :=
    if String.eqb path "/opt/a/kpackage/packagestructure/kpluginindex.json"
    then Some [fooRecord "a.so"]
    else if String.eqb path "/opt/b/kpackage/packagestructure/kpluginindex.json"
    then Some [fooRecord "b.so"]
    else None;
  findPlugins _ := [];
  desktopFiles _ := [];
  factory file :=
    if String.eqb file "a.so" then Creates "a/"
    else if String.eqb file "b.so" then Creates "b/"
    else NoFactory;
  genericRoot := "kpackage/generic/"
|}.

(** One library path with nothing in it: no index, no plugin. *)
Definition nothingInstalled : Env := {|
  separator := "/"%char;
  libraryPaths := ["/usr/lib/plugins"];
  dataLocations := ["/usr/share"];
  indexFile _ := None;
  findPlugins _ := [];
  desktopFiles _ := [];
  factory _ := NoFactory;
  genericRoot := "kpackage/generic/"
|}.

(** One library path whose index lists a plugin that takes the reserved
    id, provided by [generic.so] with the given behaviour. *)
Definition genericPlugin (outcome : FactoryOutcome) : Env := {|
  separator := "/"%char;
  libraryPaths := ["/usr/lib/plugins"];
  dataLocations := ["/usr/share"];
  indexFile path :=
    if String.eqb path "/usr/lib/plugins/kpackage/packagestructure/kpluginindex.json"
    then Some [{| j_FileName := "generic.so"; j_Id := "KPackage/Generic";
                  j_ServiceTypes := [] |}]
    else None;
  findPlugins _ := [];
  desktopFiles _ := [];
  factory file := if String.eqb file "generic.so" then outcome else NoFactory;
  genericRoot := "kpackage/generic/"
|}.

(** One library path whose plugin directory has an index without any
    record. *)
Definition emptyIndex : Env := {|
  separator := "/"%char;
  libraryPaths := ["/usr/lib/plugins"];
  dataLocations := ["/usr/share"];
  indexFile path :=
    if String.eqb path "/usr/lib/plugins/kpackage/packagestructure/kpluginindex.json"
    then Some [] else None;
  findPlugins _ := [];
  desktopFiles _ := [];
  factory _ := NoFactory;
  genericRoot := "kpackage/generic/"
|}.

(** A clock plugin that declares the wallpaper service type only. *)
Definition clockRecord : Json :=
  {| j_FileName := "clock/metadata.desktop"; j_Id := "org.clock";
     j_ServiceTypes := ["Plasma/Wallpaper"] |}.

Definition clockMeta : Meta :=
  {| m_fileName := ""; m_metaDataFileName := "clock/metadata.desktop";
     m_pluginId := "org.clock"; m_serviceTypes := ["Plasma/Wallpaper"] |}.

(** The clock installed under [/usr/share/plasma/], listed by an index
    there ([indexed = true]) or found by scanning the directory. *)
Definition clockInstalled (indexed : bool) : Env := {|
  separator := "/"%char;
  libraryPaths := [];
  dataLocations := ["/usr/share"];
  indexFile path :=
    if indexed && String.eqb path "/usr/share/plasma/kpluginindex.json"
    then Some [clockRecord] else None;
  findPlugins _ := [];
  desktopFiles dir :=
    if String.eqb dir "/usr/share/plasma/" then [clockMeta] else [];
  factory _ := NoFactory;
  genericRoot := "kpackage/generic/"
|}.

(** The clock installed in the directory [/usr/share/plasma], which has
    an index file listing it; the descriptor is found by a scan of the
    directory under either spelling of its name. *)
Definition plasmaIndexed : Env := {|
  separator := "/"%char;
  libraryPaths := [];
  dataLocations := ["/usr/share"];
  indexFile path :=
    if String.eqb path "/usr/share/plasma/kpluginindex.json"
    then Some [clockRecord] else None;
  findPlugins _ := [];
  desktopFiles dir :=
    if String.eqb dir "/usr/share/plasma" || String.eqb dir "/usr/share/plasma/"
    then [clockMeta] else [];
  factory _ := NoFactory;
  genericRoot := "kpackage/generic/"
|}.

(** An application's loader whose [internalLoadPackage] serves the format
    [custom] from a handler of its own. *)
Definition customHook (name : string) : Package :=
  if String.eqb name "custom" then Package_of 7 else Package_invalid.

Definition custom : State := {|
  this := PackageLoader_new customHook;
  heap := ∅;
  next := 0
|}.

(** The process before any loader is set or asked for. *)
Definition unset : Process :=
  {| s_packageTrader := None; loaders := ∅; nextLoader := 0 |}.

End Sample.

(** * Properties *)

Ltac run_monad :=
  unfold bind, ret, emit, structures_value, structures_insert, alloc,
    defaultPackageRoot, result, after, events; simpl.

Section LoopLemmas.
Context `{K : KCoreAddons}.
Variable E : Env.

Lemma probeStructureDir_run packageFormat acc plugindir s :
  probeStructureDir E packageFormat acc plugindir s
  = (default acc (dirMatch E packageFormat plugindir), s,
     structureDirEvents E plugindir).
Proof.
  unfold probeStructureDir, dirMatch, structureDirEvents.
  run_monad. by destruct (indexFile E _).
Qed.

Lemma default_lastMatching packageFormat dirs : ∀ acc,
  fold_left (λ acc d, default acc (dirMatch E packageFormat d)) dirs acc
  = default acc (lastMatching E packageFormat dirs).
Proof.
  induction dirs as [|d rest IH]; intros acc; simpl; [done|].
  rewrite IH. by destruct (lastMatching E packageFormat rest).
Qed.

Lemma foreach_probeStructureDir packageFormat dirs : ∀ acc s,
  foreach (probeStructureDir E packageFormat) acc dirs s
  = (default acc (lastMatching E packageFormat dirs), s,
     flat_map (structureDirEvents E) dirs).
Proof.
  induction dirs as [|d rest IH]; intros acc s; simpl; [done|].
  unfold bind. rewrite probeStructureDir_run, IH. simpl.
  by destruct (lastMatching E packageFormat rest).
Qed.

Lemma listLocation_run packageFormat actualRoot lst datadir s :
  listLocation E packageFormat actualRoot lst datadir s
  = (lst ++ listDir E packageFormat (datadir +:+ "/" +:+ actualRoot), s,
     listDirEvents E (datadir +:+ "/" +:+ actualRoot)).
Proof.
  unfold listLocation, listDir, listDirEvents.
  run_monad. by destruct (indexFile E _).
Qed.

Lemma foreach_listLocation packageFormat actualRoot locations : ∀ lst s,
  foreach (listLocation E packageFormat actualRoot) lst locations s
  = (lst ++ flat_map (listDir E packageFormat)
              (map (λ datadir, datadir +:+ "/" +:+ actualRoot) locations),
     s,
     flat_map (listDirEvents E)
       (map (λ datadir, datadir +:+ "/" +:+ actualRoot) locations)).
Proof.
  induction locations as [|d rest IH]; intros lst s; simpl.
  - by rewrite app_nil_r.
  - unfold bind. rewrite listLocation_run, IH. simpl.
    by rewrite <- app_assoc.
Qed.

(** The state [cachedOrGeneric] leaves and the handler it gives. *)
Lemma cachedOrGeneric_events packageFormat s :
  events (cachedOrGeneric E packageFormat s) = [].
Proof.
  unfold cachedOrGeneric. run_monad.
  destruct (cachedStructure s packageFormat); simpl; [done|].
  by destruct (String.eqb packageFormat genericFormat).
Qed.

Lemma instantiate_events file structure s :
  events (instantiate E file structure s) = loadEvents file.
Proof.
  unfold instantiate, loadEvents.
  destruct (isEmpty file); [done|].
  run_monad. by destruct (factory E file).
Qed.

(** [error] is set only together with a null [structure]: the warning of
    lines 337-340 is never printed. *)
Lemma instantiate_no_warning file structure s :
  let r := result (instantiate E file structure s) in
  bool_decide (is_Some r.1) && r.2 = false.
Proof.
  unfold instantiate.
  destruct (isEmpty file); run_monad.
  - apply andb_false_r.
  - destruct (factory E file); simpl; try done. apply andb_false_r.
Qed.

Lemma loadPackageStructure_run packageFormat s :
  loadPackageStructure E packageFormat s
  = let c := cachedOrGeneric E packageFormat s in
    let i := instantiate E (selectedFile E packageFormat) (result c) (after c) in
    ((result i).1,
     after (structures_insert packageFormat (result i).1 (after i)),
     discoveryEvents E packageFormat).
Proof.
  unfold loadPackageStructure, discoveryEvents, selectedFile.
  pose proof (cachedOrGeneric_events packageFormat s) as Hc.
  unfold bind at 1.
  destruct (cachedOrGeneric E packageFormat s) as [[structure s1] e1] eqn:Hcg.
  unfold events in Hc; simpl in Hc; subst e1.
  unfold bind at 1. rewrite foreach_probeStructureDir.
  set (file := default "" _).
  pose proof (instantiate_events file structure s1) as Hi.
  pose proof (instantiate_no_warning file structure s1) as Hw.
  unfold bind at 1.
  destruct (instantiate E file structure s1) as [[[r err] s2] e2] eqn:Hin.
  unfold events, result in Hi, Hw; simpl in Hi, Hw; subst e2.
  rewrite Hw. run_monad. rewrite Hin. simpl. by rewrite app_nil_r.
Qed.

End LoopLemmas.

(** ** The loader pointer is assigned once *)

Lemma setPackageLoader_installed loader p :
  is_Some (s_packageTrader p) → setPackageLoader loader p = p.
Proof. intros [a Ha]. unfold setPackageLoader. by rewrite Ha. Qed.

Lemma self_installed p a :
  s_packageTrader p = Some a → self p = (a, p).
Proof. intros Ha. unfold self. by rewrite Ha. Qed.

Lemma self_installs p : is_Some (s_packageTrader (self p).2).
Proof. unfold self. destruct (s_packageTrader p) eqn:Hp; simpl; eauto. Qed.

Lemma call_keeps_pointer c p a :
  s_packageTrader p = Some a → s_packageTrader (call c p) = Some a.
Proof.
  intros Ha. destruct c as [loader| |method]; simpl.
  - by rewrite setPackageLoader_installed by eauto.
  - by rewrite (self_installed p a).
  - by rewrite (self_installed p a).
Qed.

Lemma calls_keep_pointer cs : ∀ p a,
  s_packageTrader p = Some a → s_packageTrader (calls cs p) = Some a.
Proof.
  induction cs as [|c cs IH]; intros p a Ha; simpl; [done|].
  apply IH. by apply call_keeps_pointer.
Qed.

Lemma installed_forever p cs loader :
  is_Some (s_packageTrader p) →
  s_packageTrader (calls cs p) = s_packageTrader p
  ∧ setPackageLoader loader (calls cs p) = calls cs p.
Proof.
  intros [a Ha]. pose proof (calls_keep_pointer cs p a Ha) as Hcs.
  split; [congruence|]. apply setPackageLoader_installed. eauto.
Qed.

(** C4. Once a loader is installed, by [setPackageLoader] with a loader or
    by [self()] creating the default one, the pointer keeps its value
    through every later call, and a later [setPackageLoader] changes
    nothing at all. *)
Theorem singleton_assigned_once (p : Process) (a : nat) (cs : list Call)
    (loader : option nat) :
  (let p1 := setPackageLoader (Some a) p in
   is_Some (s_packageTrader p1)
   ∧ s_packageTrader (calls cs p1) = s_packageTrader p1
   ∧ setPackageLoader loader (calls cs p1) = calls cs p1)
  ∧
  (let p1 := (self p).2 in
   is_Some (s_packageTrader p1)
   ∧ s_packageTrader (calls cs p1) = s_packageTrader p1
   ∧ setPackageLoader loader (calls cs p1) = calls cs p1).
Proof.
  assert (Hset : is_Some (s_packageTrader (setPackageLoader (Some a) p))).
  { unfold setPackageLoader. destruct (s_packageTrader p) eqn:Hp; simpl; eauto. }
  pose proof (self_installs p) as Hself.
  split; simpl; (split; [done|]); by apply installed_forever.
Qed.

(** ** [loadPackageStructure]: cache, discovery, instantiation *)

Section StructureLemmas.
Context `{K : KCoreAddons}.
Variable E : Env.

Lemma cachedOrGeneric_result packageFormat s :
  result (cachedOrGeneric E packageFormat s)
  = match cachedStructure s packageFormat with
    | Some a => Some a
    | None => if String.eqb packageFormat genericFormat then Some (next s) else None
    end.
Proof.
  unfold cachedOrGeneric. run_monad.
  destruct (cachedStructure s packageFormat); simpl; [done|].
  by destruct (String.eqb packageFormat genericFormat).
Qed.

Lemma instantiate_result file structure s :
  (result (instantiate E file structure s)).1
  = if isEmpty file then structure
    else match factory E file with
         | NoFactory => structure
         | CreateFails => None
         | Creates _ => Some (next s)
         end.
Proof.
  unfold instantiate. destruct (isEmpty file); [done|].
  run_monad. by destruct (factory E file).
Qed.

Lemma loadPackageStructure_events packageFormat s :
  events (loadPackageStructure E packageFormat s) = discoveryEvents E packageFormat.
Proof. by rewrite loadPackageStructure_run. Qed.

(** Line 342: whatever the call returns is stored under the format. *)
Lemma loadPackageStructure_stores packageFormat s :
  let c := loadPackageStructure E packageFormat s in
  structures (this (after c)) !! packageFormat = Some (result c).
Proof.
  simpl. rewrite loadPackageStructure_run. run_monad.
  apply lookup_insert_eq.
Qed.

Lemma cachedStructure_null s packageFormat :
  structures (this s) !! packageFormat = Some None →
  cachedStructure s packageFormat = None.
Proof. intros H. unfold cachedStructure. by rewrite H. Qed.

(** A null result is followed by a null result. *)
Lemma loadPackageStructure_null_again packageFormat s :
  let first := loadPackageStructure E packageFormat s in
  result first = None →
  result (loadPackageStructure E packageFormat (after first)) = None.
Proof.
  intros first Hnull.
  pose proof (loadPackageStructure_stores packageFormat s) as Hst.
  fold first in Hst. simpl in Hst. rewrite Hnull in Hst.
  apply cachedStructure_null in Hst.
  subst first. rewrite loadPackageStructure_run in Hnull.
  unfold result at 1 in Hnull. simpl in Hnull.
  rewrite instantiate_result, cachedOrGeneric_result in Hnull.
  rewrite loadPackageStructure_run. unfold result at 1. simpl.
  rewrite instantiate_result, cachedOrGeneric_result, Hst.
  destruct (isEmpty (selectedFile E packageFormat)).
  - destruct (cachedStructure s packageFormat); [done|].
    by destruct (String.eqb packageFormat genericFormat).
  - destruct (factory E (selectedFile E packageFormat)); try done.
    destruct (cachedStructure s packageFormat); [done|].
    by destruct (String.eqb packageFormat genericFormat).
Qed.

Lemma IndexExists_in_discovery packageFormat dir :
  dir ∈ libraryPaths E →
  IndexExists (pluginDirectory E dir +:+ kpluginindex)
    ∈ discoveryEvents E packageFormat.
Proof.
  intros Hdir. unfold discoveryEvents. apply elem_of_app. left.
  apply list_elem_of_In, in_flat_map.
  exists (pluginDirectory E dir). split.
  - apply in_map. by apply list_elem_of_In.
  - simpl. by left.
Qed.

End StructureLemmas.

Section StructureClaims.
Context `{K : KCoreAddons}.

(** C2 (as amended). When the discovery is reached with no handler for
    the format at hand, every plugin directory of the search path is
    probed, in order, whether or not an earlier one matched; the module
    loaded is the one offered by the last directory that has a match
    (inside a directory, by its first matching record); and when that
    module's factory creates a handler, that handler is the result. *)
Theorem last_directory_wins (E : Env) (packageFormat : string) (s : State)
    (Hmiss : cachedStructure s packageFormat = None)
    (Hplugin : String.eqb packageFormat genericFormat = false) :
  let c := loadPackageStructure E packageFormat s in
  let file := default "" (lastMatching E packageFormat (pluginDirectories E)) in
  foreach (probeStructureDir E packageFormat) "" (pluginDirectories E) s
  = (file, s, flat_map (structureDirEvents E) (pluginDirectories E))
  ∧ events c = flat_map (structureDirEvents E) (pluginDirectories E) ++ loadEvents file
  ∧ match factory E file with
    | Creates root =>
        if isEmpty file then result c = None
        else ∃ a, result c = Some a
                  ∧ heap (after c) !! a
                    = Some {| origin := FromPlugin file; declaredRoot := root |}
    | NoFactory => result c = None
    | CreateFails => result c = None
    end.
Proof.
  cbv zeta. split; [apply foreach_probeStructureDir|]. split.
  - by rewrite loadPackageStructure_events.
  - fold (selectedFile E packageFormat).
    pose proof (cachedOrGeneric_result E packageFormat s) as Hc.
    rewrite Hmiss, Hplugin in Hc.
    rewrite loadPackageStructure_run. cbv zeta. rewrite Hc.
    unfold instantiate.
    destruct (isEmpty (selectedFile E packageFormat));
      destruct (factory E (selectedFile E packageFormat)); run_monad; try done.
    eexists. split; [done|]. apply lookup_insert_eq.
Qed.

(** C7 (as amended). The result of a call is stored under the format
    whatever it is, null included.  After a null result for a plugin
    format the next call returns null again, but it does not stop at the
    cache: it probes every plugin directory of the search path anew. *)
Theorem null_result_stored_and_rediscovered (E : Env) (packageFormat : string)
    (s : State)
    (Hplugin : String.eqb packageFormat genericFormat = false)
    (Hnull : result (loadPackageStructure E packageFormat s) = None) :
  let first := loadPackageStructure E packageFormat s in
  let second := loadPackageStructure E packageFormat (after first) in
  structures (this (after first)) !! packageFormat = Some None
  ∧ cachedStructure (after first) packageFormat = None
  ∧ result second = None
  ∧ events second = discoveryEvents E packageFormat
  ∧ ∀ dir, dir ∈ libraryPaths E →
      IndexExists (pluginDirectory E dir +:+ kpluginindex) ∈ events second.
Proof.
  cbv zeta.
  pose proof (loadPackageStructure_stores E packageFormat s) as Hst.
  cbv zeta in Hst. rewrite Hnull in Hst.
  split; [done|]. split; [by apply cachedStructure_null|].
  split; [by apply loadPackageStructure_null_again|].
  rewrite loadPackageStructure_events. split; [done|].
  intros dir Hdir. by apply IndexExists_in_discovery.
Qed.

(** Line 342 in general: the result, null or not, is what the cache holds
    under the format after the call. *)
Lemma result_stored_unconditionally (E : Env) (packageFormat : string) (s : State) :
  structures (this (after (loadPackageStructure E packageFormat s))) !! packageFormat
  = Some (result (loadPackageStructure E packageFormat s)).
Proof. apply loadPackageStructure_stores. Qed.

End StructureClaims.

(** The amended C2 on two plugin directories that both list [foo.bar]:
    both indexes are read and the module of the second one is loaded. *)
Lemma last_directory_wins_witness :
  let c := loadPackageStructure Sample.twoIndexed "foo.bar" Sample.fresh in
  events c
  = [IndexExists "/opt/a/kpackage/packagestructure/kpluginindex.json";
     IndexRead "/opt/a/kpackage/packagestructure/kpluginindex.json";
     IndexExists "/opt/b/kpackage/packagestructure/kpluginindex.json";
     IndexRead "/opt/b/kpackage/packagestructure/kpluginindex.json";
     PluginLoad "b.so"]
  ∧ ∃ a, result c = Some a
         ∧ heap (after c) !! a
           = Some {| origin := FromPlugin "b.so"; declaredRoot := "b/" |}.
Proof.
  destruct (last_directory_wins Sample.twoIndexed "foo.bar" Sample.fresh
              eq_refl eq_refl) as (_ & Hev & Hres).
  cbv zeta. split; [exact Hev|exact Hres].
Defined.

(** The amended C7 at the specification's scenario: [foo.bar] listed in
    the index of the only plugin directory, its module without a
    factory. *)
Lemma null_result_stored_and_rediscovered_witness :
  let E := Sample.oneIndexed NoFactory in
  let first := loadPackageStructure E "foo.bar" Sample.fresh in
  let second := loadPackageStructure E "foo.bar" (after first) in
  structures (this (after first)) !! "foo.bar" = Some None
  ∧ result second = None
  ∧ IndexExists "/usr/lib/plugins/kpackage/packagestructure/kpluginindex.json"
      ∈ events second.
Proof.
  destruct (null_result_stored_and_rediscovered
              (Sample.oneIndexed NoFactory) "foo.bar" Sample.fresh
              eq_refl eq_refl) as (Hst & _ & Hsecond & _ & Hprobe).
  cbv zeta. split; [exact Hst|]. split; [exact Hsecond|].
  apply (Hprobe "/usr/lib/plugins"). left.
Defined.

(** C1, on the code: with [foo.bar] provided by an indexed plugin whose
    factory works, the second of two consecutive calls reads the index and
    loads the module again, and returns a newly created handler instead of
    the cached one. *)
Theorem second_call_repeats_discovery :
  let E := Sample.oneIndexed (Creates "foo/") in
  let first := loadPackageStructure E "foo.bar" Sample.fresh in
  let second := loadPackageStructure E "foo.bar" (after first) in
  result first = Some 0
  ∧ cachedStructure (after first) "foo.bar" = Some 0
  ∧ result second = Some 1
  ∧ events second
    = [IndexExists "/usr/lib/plugins/kpackage/packagestructure/kpluginindex.json";
       IndexRead "/usr/lib/plugins/kpackage/packagestructure/kpluginindex.json";
       PluginLoad "foo.so"]
  ∧ ¬ SecondCallFromCache E "foo.bar" Sample.fresh.
Proof.
  cbv zeta. repeat split; try (vm_compute; reflexivity).
  unfold SecondCallFromCache. cbv zeta. intros H.
  assert (Hsome : is_Some (result (loadPackageStructure
            (Sample.oneIndexed (Creates "foo/")) "foo.bar" Sample.fresh)))
    by (vm_compute; eauto).
  destruct (H Hsome) as [Heq _]. vm_compute in Heq. discriminate.
Qed.

(** C2, as stated, fails: with [foo.bar] listed in the indexes of two
    plugin directories, the second directory is still probed after the
    first has matched, and its module [b.so] is the one loaded. *)
Lemma first_directory_does_not_win :
  ¬ FirstDirectoryWins Sample.twoIndexed "foo.bar" Sample.fresh.
Proof.
  unfold FirstDirectoryWins. vm_compute. discriminate.
Qed.

(** C7, as stated, fails: in the specification's scenario the second call
    returns null after reading the index and loading the module again. *)
Lemma null_result_does_not_short_circuit :
  ¬ NullResultShortCircuits (Sample.oneIndexed NoFactory) "foo.bar" Sample.fresh.
Proof.
  unfold NullResultShortCircuits. cbv zeta. intros [_ H].
  assert (Hnull : result (loadPackageStructure (Sample.oneIndexed NoFactory)
                            "foo.bar" Sample.fresh) = None) by (vm_compute; reflexivity).
  destruct (H Hnull) as [_ Hev]. vm_compute in Hev. discriminate.
Qed.

(** C3, on the code: asking for [KPackage/Generic] probes the plugin
    directory of every library path, even with nothing installed; and a
    plugin that takes the reserved id replaces the built-in handler, so
    that the call returns null when that plugin's factory creates
    nothing. *)
Theorem generic_runs_discovery :
  events (loadPackageStructure Sample.nothingInstalled genericFormat Sample.fresh)
  = [IndexExists "/usr/lib/plugins/kpackage/packagestructure/kpluginindex.json";
     FindPlugins "/usr/lib/plugins/kpackage/packagestructure/"]
  ∧ result (loadPackageStructure (Sample.genericPlugin CreateFails)
              genericFormat Sample.fresh) = None
  ∧ ¬ GenericWithoutDiscovery Sample.nothingInstalled Sample.fresh
  ∧ ¬ GenericWithoutDiscovery (Sample.genericPlugin CreateFails) Sample.fresh.
Proof.
  split; [vm_compute; reflexivity|].
  split; [vm_compute; reflexivity|].
  split; unfold GenericWithoutDiscovery; cbv zeta.
  - intros [_ Hev]. vm_compute in Hev. discriminate.
  - intros [(a & Ha & _) _]. vm_compute in Ha. discriminate.
Qed.

(** ** [loadPackage]: the hook, the empty format, the unknown format *)

Section PackageLemmas.
Context `{K : KCoreAddons}.
Variable E : Env.

Lemma Hook_not_in_discovery packageFormat f :
  Hook f ∉ discoveryEvents E packageFormat.
Proof.
  unfold discoveryEvents. intros [Hin|Hin]%elem_of_app.
  - apply list_elem_of_In, in_flat_map in Hin as (d & _ & Hd).
    unfold structureDirEvents in Hd. simpl in Hd.
    destruct Hd as [Hd|[Hd|[]]]; [discriminate|].
    by destruct (indexFile E _).
  - unfold loadEvents in Hin.
    destruct (isEmpty _); [by apply not_elem_of_nil in Hin|].
    apply list_elem_of_singleton in Hin. discriminate.
Qed.

(** Lines 163-181: what [loadPackage] does once the hook is out of the
    way. *)
Lemma loadPackage_without_hook packageFormat packagePath s :
  isDefaultLoader (this s) = true
  ∨ hasValidStructure (internalLoadPackage (this s) packageFormat) = false →
  let c := loadPackage E packageFormat packagePath s in
  let hookEvents := if isDefaultLoader (this s) then [] else [Hook packageFormat] in
  let l := loadPackageStructure E packageFormat s in
  if isEmpty packageFormat
  then c = (Package_invalid, s, hookEvents)
  else c = (match result l with
            | Some a =>
                if isEmpty packagePath then Package_of a
                else setPath (Package_of a) packagePath
            | None => Package_invalid
            end,
            after l, hookEvents ++ events l).
Proof.
  intros Hhook. cbv zeta.
  assert (Hfirst :
    (if isDefaultLoader (this s) then ret None s
     else (emit (Hook packageFormat);;
           if hasValidStructure (internalLoadPackage (this s) packageFormat)
           then ret (Some (if isEmpty packagePath
                           then internalLoadPackage (this s) packageFormat
                           else setPath (internalLoadPackage (this s) packageFormat)
                                  packagePath))
           else ret None) s)
    = (None, s, if isDefaultLoader (this s) then [] else [Hook packageFormat])).
  { destruct (isDefaultLoader (this s)); [done|].
    destruct Hhook as [?|Hinv]; [done|]. rewrite Hinv. by run_monad. }
  destruct (isEmpty packageFormat) eqn:He;
    unfold loadPackage; unfold bind at 1; rewrite Hfirst, He.
  - run_monad. by rewrite app_nil_r.
  - unfold bind.
    destruct (loadPackageStructure E packageFormat s) as [[r s'] e].
    destruct r; run_monad; by rewrite app_nil_r.
Qed.

End PackageLemmas.

Section PackageClaims.
Context `{K : KCoreAddons}.

(** C5. [loadPackage] calls [internalLoadPackage] exactly when the loader
    is not the default one [self()] creates.  When the package it returns
    has a valid structure, that package is returned at once, with the path
    set if one was given, and nothing else happens: no empty-format check,
    no cache access, no discovery.  Only [self()] marks a loader as
    default; the constructor does not. *)
Theorem hook_consulted_unless_default (E : Env) (packageFormat packagePath : string)
    (s : State) :
  let p := internalLoadPackage (this s) packageFormat in
  let c := loadPackage E packageFormat packagePath s in
  (∀ f, Hook f ∈ events c ↔ f = packageFormat ∧ isDefaultLoader (this s) = false)
  ∧ (isDefaultLoader (this s) = false → hasValidStructure p = true →
     c = (if isEmpty packagePath then p else setPath p packagePath, s,
          [Hook packageFormat]))
  ∧ (∀ hook, isDefaultLoader (PackageLoader_new hook) = false)
  ∧ (∀ proc, s_packageTrader proc = None →
       isDefaultLoader <$> loaders (self proc).2 !! (self proc).1 = Some true).
Proof.
  cbv zeta. split; [|split; [|split]].
  - intros f.
    destruct (isDefaultLoader (this s)) eqn:Hd;
      [|destruct (hasValidStructure (internalLoadPackage (this s) packageFormat)) eqn:Hv].
    + pose proof (loadPackage_without_hook E packageFormat packagePath s) as H.
      rewrite Hd in H. specialize (H (or_introl eq_refl)). cbv zeta in H.
      split; [|by intros [_ ?]]. intros Hin. exfalso.
      destruct (isEmpty packageFormat); rewrite H in Hin; unfold events in Hin;
        simpl in Hin.
      * by apply not_elem_of_nil in Hin.
      * rewrite loadPackageStructure_run in Hin. simpl in Hin.
        by apply Hook_not_in_discovery in Hin.
    + unfold loadPackage. unfold bind at 1. rewrite Hd, Hv. run_monad.
      rewrite list_elem_of_singleton. split; [by intros [= ->]|by intros [-> _]].
    + pose proof (loadPackage_without_hook E packageFormat packagePath s) as H.
      rewrite Hd in H. specialize (H (or_intror Hv)). cbv zeta in H.
      split.
      * intros Hin. split; [|done].
        destruct (isEmpty packageFormat); rewrite H in Hin; unfold events in Hin;
          simpl in Hin.
        -- apply list_elem_of_singleton in Hin. by injection Hin.
        -- apply elem_of_cons in Hin as [Hin|Hin]; [by injection Hin|].
           rewrite loadPackageStructure_run in Hin. simpl in Hin.
           by apply Hook_not_in_discovery in Hin.
      * intros [-> _].
        destruct (isEmpty packageFormat); rewrite H; unfold events; simpl;
          apply elem_of_cons; by left.
  - intros Hd Hv. unfold loadPackage. unfold bind at 1. rewrite Hd, Hv.
    by run_monad.
  - done.
  - intros proc Hnone. unfold self. rewrite Hnone. simpl.
    by rewrite lookup_insert_eq.
Qed.

(** C6. When the hook gives no valid package (always so on the default
    loader), an empty format yields the invalid package at once, without
    touching the cache or the file system, and a non-empty format whose
    structure cannot be resolved yields the invalid package as well; both
    are plain return values. *)
Theorem invalid_package_returned (E : Env) (packageFormat packagePath : string)
    (s : State)
    (Hhook : isDefaultLoader (this s) = true
             ∨ hasValidStructure (internalLoadPackage (this s) packageFormat) = false) :
  let c := loadPackage E packageFormat packagePath s in
  hasValidStructure Package_invalid = false
  ∧ (isEmpty packageFormat = true →
     result c = Package_invalid ∧ after c = s
     ∧ events c = if isDefaultLoader (this s) then [] else [Hook packageFormat])
  ∧ (isEmpty packageFormat = false →
     result (loadPackageStructure E packageFormat s) = None →
     result c = Package_invalid).
Proof.
  pose proof (loadPackage_without_hook E packageFormat packagePath s Hhook) as H.
  cbv zeta in *. split; [done|]. split.
  - intros He. rewrite He in H. by rewrite H.
  - intros He Hnull. rewrite He in H. rewrite H.
    unfold result at 1. simpl. by rewrite Hnull.
Qed.

End PackageClaims.

(** C5 on an application's loader: the hook serves [custom], and the
    package comes back with the path set, with no other access. *)
Lemma hook_consulted_unless_default_witness :
  loadPackage Sample.bare "custom" "clock" Sample.custom
  = ({| pkg_structure := Some 7; pkg_path := "clock" |}, Sample.custom,
     [Hook "custom"]).
Proof.
  destruct (hook_consulted_unless_default Sample.bare "custom" "clock" Sample.custom)
    as (_ & H & _).
  apply (H eq_refl eq_refl).
Defined.

(** C6 on the default loader: the empty format, and a format nothing
    provides, with a plugin for another format installed. *)
Lemma invalid_package_returned_witness :
  let s := {| this := {| structures := ∅; isDefaultLoader := true;
                         internalLoadPackage := Sample.customHook |};
              heap := ∅; next := 0 |} in
  let E := Sample.oneIndexed (Creates "foo/") in
  result (loadPackage E "" "" s) = Package_invalid
  ∧ events (loadPackage E "" "" s) = []
  ∧ result (loadPackage E "custom" "" s) = Package_invalid.
Proof.
  cbv zeta.
  set (s := {| this := _; heap := _; next := _ |}).
  destruct (invalid_package_returned (Sample.oneIndexed (Creates "foo/")) "" "" s
              (or_introl eq_refl)) as (_ & Hempty & _).
  destruct (invalid_package_returned (Sample.oneIndexed (Creates "foo/")) "custom" "" s
              (or_introl eq_refl)) as (_ & _ & Hunknown).
  destruct (Hempty eq_refl) as (Hr & _ & He).
  split; [exact Hr|]. split; [exact He|].
  apply Hunknown; vm_compute; reflexivity.
Defined.

(** ** [listPackages]: the root, the index and the scan *)

Section ListLemmas.
Context `{K : KCoreAddons}.
Variable E : Env.

Lemma structureForRoot_run packageFormat s :
  structureForRoot E packageFormat s
  = match cachedStructure s packageFormat with
    | Some a => (Some a, s, [])
    | None =>
        if String.eqb packageFormat genericFormat
        then cachedOrGeneric E packageFormat s
        else loadPackageStructure E packageFormat s
    end.
Proof.
  unfold structureForRoot, cachedOrGeneric. run_monad.
  destruct (cachedStructure s packageFormat); simpl; [done|].
  destruct (String.eqb packageFormat genericFormat); simpl; [done|].
  by destruct (loadPackageStructure E packageFormat s) as [[r s'] e].
Qed.

(** The root resolution either makes no access at all or runs one
    discovery. *)
Lemma structureForRoot_events packageFormat s :
  events (structureForRoot E packageFormat s) = []
  ∨ events (structureForRoot E packageFormat s) = discoveryEvents E packageFormat.
Proof.
  rewrite structureForRoot_run.
  destruct (cachedStructure s packageFormat); [by left|].
  destruct (String.eqb packageFormat genericFormat).
  - left. apply cachedOrGeneric_events.
  - right. apply loadPackageStructure_events.
Qed.

Lemma rootFromStructure_run packageFormat s :
  let r := structureForRoot E packageFormat s in
  rootFromStructure E packageFormat s
  = match result r with
    | Some a =>
        (default "" (declaredRoot <$> heap (after r) !! a),
         after (structures_insert packageFormat (Some a) (after r)),
         events r)
    | None => ("", after r, events r)
    end.
Proof.
  cbv zeta. unfold rootFromStructure. unfold bind at 1.
  destruct (structureForRoot E packageFormat s) as [[[a|] s'] e];
    run_monad; by rewrite app_nil_r.
Qed.

Lemma listPackages_run packageFormat packageRoot s :
  let r := if isEmpty packageRoot then rootFromStructure E packageFormat s
           else (packageRoot, s, []) in
  let dirs := packageDirectories E (actualRootOf E packageFormat packageRoot s) in
  listPackages E packageFormat packageRoot s
  = (flat_map (listDir E packageFormat) dirs, after r,
     events r ++ flat_map (listDirEvents E) dirs).
Proof.
  cbv zeta. unfold listPackages, actualRootOf, packageDirectories.
  unfold bind at 1.
  destruct (isEmpty packageRoot).
  - destruct (rootFromStructure E packageFormat s) as [[root s'] e].
    by rewrite foreach_listLocation.
  - unfold ret at 1. by rewrite foreach_listLocation.
Qed.

Lemma rootFromStructure_events packageFormat s :
  events (rootFromStructure E packageFormat s)
  = events (structureForRoot E packageFormat s).
Proof.
  pose proof (rootFromStructure_run packageFormat s) as H. cbv zeta in H.
  rewrite H. by destruct (result (structureForRoot E packageFormat s)).
Qed.

(** A scan of a plugin directory is in the events of a discovery only
    when that directory has no index. *)
Lemma FindPlugins_in_discovery packageFormat d :
  FindPlugins d ∈ discoveryEvents E packageFormat →
  indexFile E (d +:+ kpluginindex) = None.
Proof.
  unfold discoveryEvents. intros [Hin|Hin]%elem_of_app.
  - apply list_elem_of_In, in_flat_map in Hin as (dir & _ & Hd).
    unfold structureDirEvents in Hd. simpl in Hd.
    destruct Hd as [Hd|[Hd|[]]]; [discriminate|].
    destruct (indexFile E (dir +:+ kpluginindex)) eqn:Hix; [discriminate|].
    by injection Hd as ->.
  - unfold loadEvents in Hin.
    destruct (isEmpty _); [by apply not_elem_of_nil in Hin|].
    apply list_elem_of_singleton in Hin. discriminate.
Qed.

Lemma DirIterate_not_in_discovery packageFormat d :
  DirIterate d ∉ discoveryEvents E packageFormat.
Proof.
  unfold discoveryEvents. intros [Hin|Hin]%elem_of_app.
  - apply list_elem_of_In, in_flat_map in Hin as (dir & _ & Hd).
    unfold structureDirEvents in Hd. simpl in Hd.
    destruct Hd as [Hd|[Hd|[]]]; [discriminate|].
    by destruct (indexFile E _).
  - unfold loadEvents in Hin.
    destruct (isEmpty _); [by apply not_elem_of_nil in Hin|].
    apply list_elem_of_singleton in Hin. discriminate.
Qed.

Lemma DirIterate_in_listing dirs d :
  DirIterate d ∈ flat_map (listDirEvents E) dirs →
  indexFile E (d +:+ kpluginindex) = None.
Proof.
  intros Hin. apply list_elem_of_In, in_flat_map in Hin as (dir & _ & Hd).
  unfold listDirEvents in Hd. simpl in Hd.
  destruct Hd as [Hd|[Hd|[]]]; [discriminate|].
  destruct (indexFile E (dir +:+ kpluginindex)) eqn:Hix; [discriminate|].
  by injection Hd as ->.
Qed.

Lemma FindPlugins_not_in_listing dirs d :
  FindPlugins d ∉ flat_map (listDirEvents E) dirs.
Proof.
  intros Hin. apply list_elem_of_In, in_flat_map in Hin as (dir & _ & Hd).
  unfold listDirEvents in Hd. simpl in Hd.
  destruct Hd as [Hd|[Hd|[]]]; [discriminate|].
  by destruct (indexFile E _).
Qed.

End ListLemmas.

Section ListClaims.
Context `{K : KCoreAddons}.

(** X21. For a directory string such that the path both loops test, the
    string immediately followed by [kpluginindex.json], exists: probing
    it makes the existence check and the index read and nothing else,
    whatever the index holds, and no call of [loadPackageStructure] or
    [listPackages] runs [findPlugins] or a directory iteration on that
    string. *)
Theorem index_excludes_scan (E : Env) (d : string) (plugins : list QJsonObject)
    (Hindex : indexFile E (d +:+ kpluginindex) = Some plugins)
    (packageFormat packageRoot pluginFileName : string)
    (lst : list KPluginMetaData) (s : State) :
  events (probeStructureDir E packageFormat pluginFileName d s)
  = [IndexExists (d +:+ kpluginindex); IndexRead (d +:+ kpluginindex)]
  ∧ (∀ datadir actualRoot, d = datadir +:+ "/" +:+ actualRoot →
     events (listLocation E packageFormat actualRoot lst datadir s)
     = [IndexExists (d +:+ kpluginindex); IndexRead (d +:+ kpluginindex)])
  ∧ (FindPlugins d ∉ events (loadPackageStructure E packageFormat s))
  ∧ (FindPlugins d ∉ events (listPackages E packageFormat packageRoot s))
  ∧ (DirIterate d ∉ events (loadPackageStructure E packageFormat s))
  ∧ (DirIterate d ∉ events (listPackages E packageFormat packageRoot s)).
Proof.
  assert (Hroot : ∀ e,
    e ∈ events (if isEmpty packageRoot then rootFromStructure E packageFormat s
                else (packageRoot, s, [])) →
    e ∈ discoveryEvents E packageFormat).
  { intros e. destruct (isEmpty packageRoot).
    - rewrite rootFromStructure_events.
      destruct (structureForRoot_events E packageFormat s) as [-> | ->]; [|done].
      by intros ?%not_elem_of_nil.
    - by intros ?%not_elem_of_nil. }
  split; [|split; [|split; [|split; [|split]]]].
  - rewrite probeStructureDir_run. unfold events, structureDirEvents. simpl.
    by rewrite Hindex.
  - intros datadir actualRoot ->. rewrite listLocation_run.
    unfold events, listDirEvents. simpl. by rewrite Hindex.
  - rewrite loadPackageStructure_events. intros Hin%FindPlugins_in_discovery.
    congruence.
  - pose proof (listPackages_run E packageFormat packageRoot s) as Hrun.
    cbv zeta in Hrun. rewrite Hrun. unfold events at 1. simpl.
    intros [Hin|Hin]%elem_of_app.
    + apply Hroot, FindPlugins_in_discovery in Hin. congruence.
    + by apply FindPlugins_not_in_listing in Hin.
  - rewrite loadPackageStructure_events. apply DirIterate_not_in_discovery.
  - pose proof (listPackages_run E packageFormat packageRoot s) as Hrun.
    cbv zeta in Hrun. rewrite Hrun. unfold events at 1. simpl.
    intros [Hin|Hin]%elem_of_app.
    + by apply Hroot, DirIterate_not_in_discovery in Hin.
    + apply DirIterate_in_listing in Hin. congruence.
Qed.


(** A valid record of an index found at the path [listPackages] tests
    for a listed directory is in the result, whatever service types the
    record declares and whatever format was asked for. *)
Theorem index_records_unfiltered (E : Env) (packageFormat packageRoot : string)
    (s : State) (datadir : string) (plugins : list QJsonObject) (obj : QJsonObject)
    (Hlocation : datadir ∈ dataLocations E)
    (Hindex : indexFile E
                ((datadir +:+ "/" +:+ actualRootOf E packageFormat packageRoot s)
                 +:+ kpluginindex) = Some plugins)
    (Hrecord : obj ∈ plugins)
    (Hvalid : isValid (metaFromJson obj "" (json_FileName obj)) = true) :
  metaFromJson obj "" (json_FileName obj)
    ∈ result (listPackages E packageFormat packageRoot s).
Proof.
  pose proof (listPackages_run E packageFormat packageRoot s) as Hrun.
  cbv zeta in Hrun. rewrite Hrun. unfold result. simpl.
  apply list_elem_of_In, in_flat_map.
  exists (datadir +:+ "/" +:+ actualRootOf E packageFormat packageRoot s). split.
  - unfold packageDirectories.
    apply (in_map (λ datadir, datadir +:+ "/" +:+ _)). by apply list_elem_of_In.
  - unfold listDir. rewrite Hindex. unfold fromIndex.
    apply list_elem_of_In, list_elem_of_filter. split; [done|].
    apply list_elem_of_In.
    apply (in_map (λ obj, metaFromJson obj "" (json_FileName obj))).
    by apply list_elem_of_In.
Qed.

End ListClaims.

(** X21 on a plugin directory whose index holds no record. *)
Lemma index_excludes_scan_witness :
  let d := "/usr/lib/plugins/kpackage/packagestructure/" in
  indexFile Sample.emptyIndex (d +:+ kpluginindex) = Some []
  ∧ events (loadPackageStructure Sample.emptyIndex "foo.bar" Sample.fresh)
    = [IndexExists (d +:+ kpluginindex); IndexRead (d +:+ kpluginindex)]
  ∧ (FindPlugins d
       ∉ events (loadPackageStructure Sample.emptyIndex "foo.bar" Sample.fresh))
  ∧ (FindPlugins d
       ∉ events (listPackages Sample.emptyIndex "foo.bar" "" Sample.fresh)).
Proof.
  cbv zeta.
  assert (Hindex : indexFile Sample.emptyIndex
            ("/usr/lib/plugins/kpackage/packagestructure/" +:+ kpluginindex)
          = Some []) by reflexivity.
  destruct (index_excludes_scan Sample.emptyIndex _ _ Hindex "foo.bar" "" "" []
              Sample.fresh) as (_ & _ & Hs & Hl & _).
  split; [exact Hindex|]. split; [vm_compute; reflexivity|].
  split; [exact Hs|exact Hl].
Defined.

(** The clock plugin declares [Plasma/Wallpaper] only: asked for
    [Plasma/Applet] with the root [plasma/], the listing has it when the
    index is found and does not have it when the directory is scanned. *)
Lemma index_records_unfiltered_witness :
  Sample.clockMeta
    ∈ result (listPackages (Sample.clockInstalled true) "Plasma/Applet" "plasma/"
                Sample.fresh)
  ∧ result (listPackages (Sample.clockInstalled false) "Plasma/Applet" "plasma/"
              Sample.fresh) = [].
Proof.
  split.
  - apply (index_records_unfiltered (Sample.clockInstalled true) "Plasma/Applet"
             "plasma/" Sample.fresh "/usr/share" [Sample.clockRecord]
             Sample.clockRecord).
    + vm_compute. left.
    + reflexivity.
    + left.
    + reflexivity.
  - vm_compute. reflexivity.
Defined.


(** ** Further properties of the code *)

Lemma endsWith_append s c : endsWith (s +:+ String c "") c = true.
Proof.
  induction s as [|a r IH]; simpl.
  - apply Ascii.eqb_refl.
  - destruct r; simpl in *; [apply Ascii.eqb_refl|exact IH].
Qed.

(** X1. Lines 280-286: every plugin directory string ends with the
    separator, so that the index path of line 292 names
    [kpluginindex.json] inside that directory. *)
Theorem plugin_directory_ends_with_separator `{K : KCoreAddons} (E : Env)
    (dir : string) :
  endsWith (pluginDirectory E dir) (separator E) = true.
Proof.
  unfold pluginDirectory. cbv zeta.
  destruct (endsWith (dir +:+ String (separator E) "" +:+ subDirectory)
              (separator E)) eqn:He; [exact He|].
  apply endsWith_append.
Qed.

(** X2. Lines 337-340: [error] is only set when [structure] is null, so
    the warning is never printed. *)
Theorem warning_never_printed `{K : KCoreAddons} (E : Env)
    (packageFormat f : string) (s : State) :
  Warning f ∉ events (loadPackageStructure E packageFormat s).
Proof.
  rewrite loadPackageStructure_events. unfold discoveryEvents.
  intros [Hin|Hin]%elem_of_app.
  - apply list_elem_of_In, in_flat_map in Hin as (d & _ & Hd).
    unfold structureDirEvents in Hd. simpl in Hd.
    destruct Hd as [Hd|[Hd|[]]]; [discriminate|].
    by destruct (indexFile E _).
  - unfold loadEvents in Hin.
    destruct (isEmpty _); [by apply not_elem_of_nil in Hin|].
    apply list_elem_of_singleton in Hin. discriminate.
Qed.

(** X3. Lines 217-264: the listing is the concatenation, in the order of
    the data locations, of what each location's directory contributes;
    nothing is merged or removed across locations. *)
Theorem listing_concatenates_locations `{K : KCoreAddons} (E : Env)
    (packageFormat packageRoot : string) (s : State) :
  result (listPackages E packageFormat packageRoot s)
  = flat_map (listDir E packageFormat)
      (packageDirectories E (actualRootOf E packageFormat packageRoot s)).
Proof.
  pose proof (listPackages_run E packageFormat packageRoot s) as Hrun.
  cbv zeta in Hrun. by rewrite Hrun.
Qed.

(** ** What the operations keep *)

Section KeepLemmas.
Context `{K : KCoreAddons}.
Variable E : Env.

Lemma keeps_refl packageFormat s : keeps packageFormat s s.
Proof. unfold keeps. naive_solver. Qed.

Lemma keeps_trans packageFormat s1 s2 s3 :
  keeps packageFormat s1 s2 → keeps packageFormat s2 s3 → keeps packageFormat s1 s3.
Proof.
  intros (Hd1 & Hh1 & Ho1 & Hc1 & Hl1 & Hf1) (Hd2 & Hh2 & Ho2 & Hc2 & Hl2 & Hf2).
  unfold keeps. split_and!; try congruence.
  - intros f Hf. rewrite Ho2, Ho1; done.
  - eauto.
  - eauto.
  - intros Hw. destruct (Hf1 Hw) as [Hw2 Hs1]. destruct (Hf2 Hw2) as [Hw3 Hs2].
    split; [done|]. eauto.
Qed.

Lemma keeps_alloc packageFormat obj s :
  keeps packageFormat s (after (alloc obj s)).
Proof.
  unfold keeps. run_monad. split_and!; try done.
  - intros a Ha. destruct (decide (a = next s)) as [->|Hne].
    + rewrite lookup_insert_eq. eauto.
    + by rewrite lookup_insert_ne.
  - intros Hw. split.
    + intros a Ha. simpl in *. destruct (decide (a = next s)) as [->|Hne]; [lia|].
      rewrite lookup_insert_ne in Ha by done. apply Hw in Ha. lia.
    + intros a obj' Ha.
      assert (a < next s) by (apply Hw; eauto).
      rewrite lookup_insert_ne by lia. done.
Qed.

Lemma keeps_insert packageFormat structure s :
  keeps packageFormat s (after (structures_insert packageFormat structure s)).
Proof.
  unfold keeps. run_monad. split_and!; try done.
  - intros f Hf. by rewrite lookup_insert_ne.
  - intros f Hf. destruct (decide (f = packageFormat)) as [->|Hne].
    + rewrite lookup_insert_eq. eauto.
    + by rewrite lookup_insert_ne.
Qed.

Lemma cachedOrGeneric_after packageFormat s :
  after (cachedOrGeneric E packageFormat s)
  = match cachedStructure s packageFormat with
    | Some _ => s
    | None =>
        if String.eqb packageFormat genericFormat
        then after (alloc (GenericPackage E) s)
        else s
    end.
Proof.
  unfold cachedOrGeneric. run_monad.
  destruct (cachedStructure s packageFormat); simpl; [done|].
  by destruct (String.eqb packageFormat genericFormat).
Qed.

Lemma instantiate_after file structure s :
  after (instantiate E file structure s)
  = if isEmpty file then s
    else match factory E file with
         | Creates root =>
             after (alloc {| origin := FromPlugin file; declaredRoot := root |} s)
         | _ => s
         end.
Proof.
  unfold instantiate. destruct (isEmpty file); [done|].
  run_monad. by destruct (factory E file).
Qed.

Lemma keeps_cachedOrGeneric packageFormat s :
  keeps packageFormat s (after (cachedOrGeneric E packageFormat s)).
Proof.
  rewrite cachedOrGeneric_after.
  destruct (cachedStructure s packageFormat); [apply keeps_refl|].
  destruct (String.eqb packageFormat genericFormat);
    [apply keeps_alloc|apply keeps_refl].
Qed.

Lemma keeps_instantiate packageFormat file structure s :
  keeps packageFormat s (after (instantiate E file structure s)).
Proof.
  rewrite instantiate_after.
  destruct (isEmpty file); [apply keeps_refl|].
  destruct (factory E file); try apply keeps_refl. apply keeps_alloc.
Qed.

Lemma keeps_loadPackageStructure packageFormat s :
  keeps packageFormat s (after (loadPackageStructure E packageFormat s)).
Proof.
  rewrite loadPackageStructure_run. cbv zeta. unfold after at 1. simpl.
  eapply keeps_trans; [apply keeps_cachedOrGeneric|].
  eapply keeps_trans; [apply keeps_instantiate|].
  apply keeps_insert.
Qed.

Lemma keeps_structureForRoot packageFormat s :
  keeps packageFormat s (after (structureForRoot E packageFormat s)).
Proof.
  rewrite structureForRoot_run.
  destruct (cachedStructure s packageFormat); [apply keeps_refl|].
  destruct (String.eqb packageFormat genericFormat).
  - apply keeps_cachedOrGeneric.
  - apply keeps_loadPackageStructure.
Qed.

Lemma keeps_listPackages packageFormat packageRoot s :
  keeps packageFormat s (after (listPackages E packageFormat packageRoot s)).
Proof.
  pose proof (listPackages_run E packageFormat packageRoot s) as Hrun.
  cbv zeta in Hrun. rewrite Hrun. unfold after at 1. simpl.
  destruct (isEmpty packageRoot); [|apply keeps_refl].
  pose proof (rootFromStructure_run E packageFormat s) as Hroot.
  cbv zeta in Hroot. rewrite Hroot.
  destruct (result (structureForRoot E packageFormat s)).
  - unfold after at 1. simpl.
    eapply keeps_trans; [apply keeps_structureForRoot|apply keeps_insert].
  - apply keeps_structureForRoot.
Qed.

Lemma loadPackage_after packageFormat packagePath s :
  after (loadPackage E packageFormat packagePath s) = s
  ∨ after (loadPackage E packageFormat packagePath s)
    = after (loadPackageStructure E packageFormat s).
Proof.
  destruct (isDefaultLoader (this s)) eqn:Hd;
    [|destruct (hasValidStructure (internalLoadPackage (this s) packageFormat)) eqn:Hv].
  - pose proof (loadPackage_without_hook E packageFormat packagePath s
                  (or_introl Hd)) as H. cbv zeta in H.
    destruct (isEmpty packageFormat); rewrite H; [by left|by right].
  - left. unfold loadPackage. unfold bind at 1. rewrite Hd, Hv. by run_monad.
  - pose proof (loadPackage_without_hook E packageFormat packagePath s
                  (or_intror Hv)) as H. cbv zeta in H.
    destruct (isEmpty packageFormat); rewrite H; [by left|by right].
Qed.

Lemma keeps_loadPackage packageFormat packagePath s :
  keeps packageFormat s (after (loadPackage E packageFormat packagePath s)).
Proof.
  destruct (loadPackage_after packageFormat packagePath s) as [-> | ->].
  - apply keeps_refl.
  - apply keeps_loadPackageStructure.
Qed.

End KeepLemmas.

Section StateProperties.
Context `{K : KCoreAddons}.

(** X4. None of the three operations changes whether the loader is the
    default one, replaces its hook, touches the cache entry of another
    format or removes a cache entry. *)
Theorem operations_keep_loader_and_cache (E : Env)
    (packageFormat packagePath packageRoot : string) (s : State) :
  Forall (λ s',
            isDefaultLoader (this s') = isDefaultLoader (this s)
            ∧ internalLoadPackage (this s') = internalLoadPackage (this s)
            ∧ (∀ f, f ≠ packageFormat →
                 structures (this s') !! f = structures (this s) !! f)
            ∧ (∀ f, is_Some (structures (this s) !! f) →
                 is_Some (structures (this s') !! f)))
    [after (loadPackageStructure E packageFormat s);
     after (loadPackage E packageFormat packagePath s);
     after (listPackages E packageFormat packageRoot s)].
Proof.
  pose proof (keeps_loadPackageStructure E packageFormat s) as (?&?&?&?&_).
  pose proof (keeps_loadPackage E packageFormat packagePath s) as (?&?&?&?&_).
  pose proof (keeps_listPackages E packageFormat packageRoot s) as (?&?&?&?&_).
  repeat constructor; done.
Qed.

(** X5. None of the three operations destroys or overwrites a handler:
    when the next address is fresh it stays fresh, and every handler on
    the heap before the call is on the heap after it, unchanged, whether
    or not the cache still points to it. *)
Theorem operations_keep_handlers (E : Env)
    (packageFormat packagePath packageRoot : string) (s : State)
    (Hfresh : fresh_next s) :
  Forall (λ s',
            fresh_next s'
            ∧ ∀ a obj, heap s !! a = Some obj → heap s' !! a = Some obj)
    [after (loadPackageStructure E packageFormat s);
     after (loadPackage E packageFormat packagePath s);
     after (listPackages E packageFormat packageRoot s)].
Proof.
  destruct (keeps_loadPackageStructure E packageFormat s) as (_&_&_&_&_&[]); [done|].
  destruct (keeps_loadPackage E packageFormat packagePath s) as (_&_&_&_&_&[]); [done|].
  destruct (keeps_listPackages E packageFormat packageRoot s) as (_&_&_&_&_&[]); [done|].
  repeat constructor; done.
Qed.

End StateProperties.

(** ** The result of [loadPackageStructure] *)

Section ResultLemmas.
Context `{K : KCoreAddons}.
Variable E : Env.

(** The result, the heap and the cache of a call, spelled out. *)
Lemma loadPackageStructure_result packageFormat s :
  result (loadPackageStructure E packageFormat s)
  = let cached :=
      match cachedStructure s packageFormat with
      | Some a => Some a
      | None => if String.eqb packageFormat genericFormat then Some (next s) else None
      end in
    let file := selectedFile E packageFormat in
    if isEmpty file then cached
    else match factory E file with
         | NoFactory => cached
         | CreateFails => None
         | Creates _ => Some (next (after (cachedOrGeneric E packageFormat s)))
         end.
Proof.
  rewrite loadPackageStructure_run. cbv zeta. unfold result at 1. simpl.
  by rewrite instantiate_result, cachedOrGeneric_result.
Qed.

Lemma loadPackageStructure_heap packageFormat s :
  heap (after (loadPackageStructure E packageFormat s))
  = heap (after (instantiate E (selectedFile E packageFormat)
                   (result (cachedOrGeneric E packageFormat s))
                   (after (cachedOrGeneric E packageFormat s)))).
Proof. by rewrite loadPackageStructure_run. Qed.

Lemma cachedStructure_live s packageFormat a :
  cachedStructure s packageFormat = Some a → is_Some (heap s !! a).
Proof.
  unfold cachedStructure.
  destruct (structures (this s) !! packageFormat) as [[b|]|]; try done.
  destruct (decide (is_Some (heap s !! b))); [|done]. by intros [= <-].
Qed.

(** A non-null result is a live handler. *)
Lemma loadPackageStructure_live packageFormat s a :
  result (loadPackageStructure E packageFormat s) = Some a →
  is_Some (heap (after (loadPackageStructure E packageFormat s)) !! a).
Proof.
  rewrite loadPackageStructure_result, loadPackageStructure_heap. cbv zeta.
  rewrite instantiate_after, cachedOrGeneric_after.
  assert (Hcached :
    match cachedStructure s packageFormat with
    | Some a0 => Some a0
    | None => if String.eqb packageFormat genericFormat then Some (next s) else None
    end = Some a →
    is_Some (heap match cachedStructure s packageFormat with
                  | Some _ => s
                  | None => if String.eqb packageFormat genericFormat
                            then after (alloc (GenericPackage E) s) else s
                  end !! a)).
  { destruct (cachedStructure s packageFormat) as [b|] eqn:Hc.
    - intros [= <-]. by apply cachedStructure_live in Hc.
    - destruct (String.eqb packageFormat genericFormat); [|done].
      intros [= <-]. run_monad. rewrite lookup_insert_eq. eauto. }
  destruct (isEmpty (selectedFile E packageFormat)); [done|].
  destruct (factory E (selectedFile E packageFormat)); try done.
  intros [= <-]. run_monad. rewrite lookup_insert_eq. eauto.
Qed.

Lemma firstInIndex_Some packageFormat plugins file :
  firstInIndex packageFormat plugins = Some file →
  ∃ obj, obj ∈ plugins ∧ json_FileName obj = file
         ∧ pluginId (metaFromJson obj (json_FileName obj) "") = packageFormat.
Proof.
  induction plugins as [|obj rest IH]; simpl; [done|].
  destruct (String.eqb _ packageFormat) eqn:Hid.
  - intros [= <-]. exists obj. split; [left|]. split; [done|].
    by apply String.eqb_eq.
  - intros (obj' & Hin & Hrest)%IH. exists obj'. split; [by right|done].
Qed.

Lemma firstInPlugins_Some packageFormat plugins file :
  firstInPlugins packageFormat plugins = Some file →
  ∃ md, md ∈ plugins ∧ fileName md = file ∧ pluginId md = packageFormat.
Proof.
  induction plugins as [|md rest IH]; simpl; [done|].
  destruct (String.eqb _ packageFormat) eqn:Hid.
  - intros [= <-]. exists md. split; [left|]. split; [done|].
    by apply String.eqb_eq.
  - intros (md' & Hin & Hrest)%IH. exists md'. split; [by right|done].
Qed.

Lemma dirMatch_advertises packageFormat plugindir file :
  dirMatch E packageFormat plugindir = Some file →
  advertises E packageFormat plugindir file.
Proof.
  unfold dirMatch, advertises.
  destruct (indexFile E (plugindir +:+ kpluginindex)).
  - apply firstInIndex_Some.
  - apply firstInPlugins_Some.
Qed.

Lemma lastMatching_advertises packageFormat dirs file :
  lastMatching E packageFormat dirs = Some file →
  ∃ d, d ∈ dirs ∧ advertises E packageFormat d file.
Proof.
  induction dirs as [|d rest IH]; simpl; [done|].
  destruct (lastMatching E packageFormat rest) as [file'|].
  - intros [= <-]. destruct (IH eq_refl) as (d' & Hin & Had).
    exists d'. split; [by right|done].
  - intros Hd%dirMatch_advertises. exists d. split; [left|done].
Qed.

(** The module a call loads is advertised for the format by the plugin
    directory of some library path. *)
Lemma PluginLoad_in_discovery packageFormat file :
  PluginLoad file ∈ discoveryEvents E packageFormat →
  ∃ dir, dir ∈ libraryPaths E
         ∧ advertises E packageFormat (pluginDirectory E dir) file.
Proof.
  unfold discoveryEvents. intros [Hin|Hin]%elem_of_app.
  - apply list_elem_of_In, in_flat_map in Hin as (d & _ & Hd).
    unfold structureDirEvents in Hd. simpl in Hd.
    destruct Hd as [Hd|[Hd|[]]]; [discriminate|].
    by destruct (indexFile E _).
  - unfold loadEvents, selectedFile in Hin.
    destruct (lastMatching E packageFormat (pluginDirectories E)) as [f|] eqn:Hlast;
      simpl in Hin.
    + destruct (isEmpty f); [by apply not_elem_of_nil in Hin|].
      apply list_elem_of_singleton in Hin. injection Hin as ->.
      apply lastMatching_advertises in Hlast as (d & Hd & Had).
      unfold pluginDirectories in Hd.
      apply list_elem_of_In, in_map_iff in Hd as (dir & <- & Hdir).
      exists dir. split; [by apply list_elem_of_In|done].
    + by apply not_elem_of_nil in Hin.
Qed.

(** Without an advertising directory the discovery selects no file. *)
Lemma selectedFile_unadvertised packageFormat :
  (∀ dir file, dir ∈ libraryPaths E →
     ¬ advertises E packageFormat (pluginDirectory E dir) file) →
  selectedFile E packageFormat = "".
Proof.
  intros Hnone. unfold selectedFile.
  destruct (lastMatching E packageFormat (pluginDirectories E)) as [f|] eqn:Hlast;
    [|done].
  apply lastMatching_advertises in Hlast as (d & Hd & Had).
  unfold pluginDirectories in Hd.
  apply list_elem_of_In, in_map_iff in Hd as (dir & <- & Hdir).
  destruct (Hnone dir f); [by apply list_elem_of_In|done].
Qed.

Lemma events_without_module packageFormat :
  isEmpty (selectedFile E packageFormat) = true →
  discoveryEvents E packageFormat
  = flat_map (structureDirEvents E) (pluginDirectories E).
Proof.
  intros He. unfold discoveryEvents, loadEvents. rewrite He. apply app_nil_r.
Qed.

End ResultLemmas.

Section ResultProperties.
Context `{K : KCoreAddons}.

Lemma cachedStructure_after_call (E : Env) packageFormat s :
  cachedStructure (after (loadPackageStructure E packageFormat s)) packageFormat
  = result (loadPackageStructure E packageFormat s).
Proof.
  pose proof (loadPackageStructure_stores E packageFormat s) as Hst.
  cbv zeta in Hst. unfold cachedStructure. rewrite Hst.
  destruct (result (loadPackageStructure E packageFormat s)) as [a|] eqn:Hr; [|done].
  apply (loadPackageStructure_live E) in Hr. by rewrite decide_True.
Qed.

Lemma instantiate_after_noModule (E : Env) packageFormat structure s :
  noModule E packageFormat →
  after (instantiate E (selectedFile E packageFormat) structure s) = s.
Proof.
  intros Hno. rewrite instantiate_after.
  destruct (isEmpty (selectedFile E packageFormat)) eqn:He; [done|].
  destruct Hno as [?| ->]; [congruence|done].
Qed.

Lemma loadPackageStructure_result_noModule (E : Env) packageFormat s :
  noModule E packageFormat →
  result (loadPackageStructure E packageFormat s)
  = match cachedStructure s packageFormat with
    | Some a => Some a
    | None => if String.eqb packageFormat genericFormat then Some (next s) else None
    end.
Proof.
  intros Hno. rewrite loadPackageStructure_result. cbv zeta.
  destruct (isEmpty (selectedFile E packageFormat)) eqn:He; [done|].
  destruct Hno as [?| ->]; [congruence|done].
Qed.

(** X6. Reading the cache right after a call gives exactly what the call
    returned: the handler returned is live and is the one stored under the
    format, and a null result reads back as null. *)
Theorem cache_reads_back_result (E : Env) (packageFormat : string) (s : State) :
  cachedStructure (after (loadPackageStructure E packageFormat s)) packageFormat
  = result (loadPackageStructure E packageFormat s).
Proof. apply cachedStructure_after_call. Qed.

(** X7. When the discovery finds no module to load for a format (no
    directory offers one, or the file offered has no factory), a call
    returns the cached handler, or a new generic one for the reserved
    format, or null; a second call then returns the same result and
    creates nothing. *)
Theorem result_stable_without_module (E : Env) (packageFormat : string) (s : State)
    (Hno : noModule E packageFormat) :
  let first := loadPackageStructure E packageFormat s in
  let second := loadPackageStructure E packageFormat (after first) in
  result first
  = match cachedStructure s packageFormat with
    | Some a => Some a
    | None => if String.eqb packageFormat genericFormat then Some (next s) else None
    end
  ∧ result second = result first
  ∧ heap (after second) = heap (after first)
  ∧ next (after second) = next (after first).
Proof.
  cbv zeta. split; [by apply loadPackageStructure_result_noModule|].
  pose proof (cachedStructure_after_call E packageFormat s) as Hback.
  pose proof (loadPackageStructure_result_noModule E packageFormat s Hno) as Hfirst.
  set (s1 := after (loadPackageStructure E packageFormat s)) in *.
  assert (Hc1 : after (cachedOrGeneric E packageFormat s1) = s1
                ∧ result (loadPackageStructure E packageFormat s1)
                  = result (loadPackageStructure E packageFormat s)).
  { rewrite cachedOrGeneric_after,
      (loadPackageStructure_result_noModule E packageFormat s1 Hno), Hback.
    destruct (result (loadPackageStructure E packageFormat s)) as [a|]; [done|].
    destruct (cachedStructure s packageFormat); [done|].
    by destruct (String.eqb packageFormat genericFormat). }
  destruct Hc1 as [Hc1 Hres]. split; [done|].
  rewrite loadPackageStructure_run. cbv zeta. unfold after at 1 3. simpl.
  by rewrite instantiate_after_noModule, Hc1.
Qed.

(** X8. A format that is not cached, is not the reserved one and is
    advertised by no plugin directory is unresolved: the call returns
    null, loads no module and creates no handler, and [loadPackage]
    returns the invalid package unless the hook provides one. *)
Theorem unknown_format_unresolved (E : Env) (packageFormat packagePath : string)
    (s : State)
    (Hmiss : cachedStructure s packageFormat = None)
    (Hplugin : String.eqb packageFormat genericFormat = false)
    (Hnone : ∀ dir file, dir ∈ libraryPaths E →
               ¬ advertises E packageFormat (pluginDirectory E dir) file)
    (Hhook : isDefaultLoader (this s) = true
             ∨ hasValidStructure (internalLoadPackage (this s) packageFormat) = false) :
  let c := loadPackageStructure E packageFormat s in
  result c = None
  ∧ events c = flat_map (structureDirEvents E) (pluginDirectories E)
  ∧ heap (after c) = heap s
  ∧ result (loadPackage E packageFormat packagePath s) = Package_invalid.
Proof.
  cbv zeta.
  pose proof (selectedFile_unadvertised E packageFormat Hnone) as Hfile.
  assert (Hno : noModule E packageFormat) by (left; by rewrite Hfile).
  assert (Hres : result (loadPackageStructure E packageFormat s) = None).
  { by rewrite loadPackageStructure_result_noModule, Hmiss, Hplugin. }
  split; [done|]. split.
  { rewrite loadPackageStructure_events. apply events_without_module.
    by rewrite Hfile. }
  split.
  { rewrite loadPackageStructure_heap, instantiate_after_noModule by done.
    by rewrite cachedOrGeneric_after, Hmiss, Hplugin. }
  pose proof (loadPackage_without_hook E packageFormat packagePath s Hhook) as H.
  cbv zeta in H. destruct (isEmpty packageFormat); rewrite H; [done|].
  unfold result at 1. simpl. by rewrite Hres.
Qed.

Lemma loadPackage_events (E : Env) packageFormat packagePath s e :
  e ∈ events (loadPackage E packageFormat packagePath s) →
  e = Hook packageFormat ∨ e ∈ discoveryEvents E packageFormat.
Proof.
  destruct (isDefaultLoader (this s)) eqn:Hd;
    [|destruct (hasValidStructure (internalLoadPackage (this s) packageFormat)) eqn:Hv].
  - pose proof (loadPackage_without_hook E packageFormat packagePath s
                  (or_introl Hd)) as H. cbv zeta in H. rewrite Hd in H.
    destruct (isEmpty packageFormat); rewrite H; unfold events at 1; simpl.
    + by intros ?%not_elem_of_nil.
    + rewrite loadPackageStructure_events. by right.
  - unfold loadPackage. unfold bind at 1. rewrite Hd, Hv. run_monad.
    intros ->%list_elem_of_singleton. by left.
  - pose proof (loadPackage_without_hook E packageFormat packagePath s
                  (or_intror Hv)) as H. cbv zeta in H. rewrite Hd in H.
    destruct (isEmpty packageFormat); rewrite H; unfold events at 1; simpl.
    + intros ->%list_elem_of_singleton. by left.
    + rewrite loadPackageStructure_events.
      intros [->|?]%elem_of_cons; [by left|by right].
Qed.

Lemma listPackages_events (E : Env) packageFormat packageRoot s e :
  e ∈ events (listPackages E packageFormat packageRoot s) →
  e ∈ discoveryEvents E packageFormat
  ∨ e ∈ flat_map (listDirEvents E)
          (packageDirectories E (actualRootOf E packageFormat packageRoot s)).
Proof.
  pose proof (listPackages_run E packageFormat packageRoot s) as Hrun.
  cbv zeta in Hrun. rewrite Hrun. unfold events at 1. simpl.
  intros [Hin|Hin]%elem_of_app; [left|by right].
  destruct (isEmpty packageRoot); [|by apply not_elem_of_nil in Hin].
  rewrite rootFromStructure_events in Hin.
  destruct (structureForRoot_events E packageFormat s) as [Hev|Hev];
    rewrite Hev in Hin; [by apply not_elem_of_nil in Hin|done].
Qed.

(** X9. Whatever module one of the three operations loads was advertised
    for the requested format, by a record with that plugin id, in the
    plugin directory of some library path. *)
Theorem only_advertised_modules_loaded (E : Env)
    (packageFormat packagePath packageRoot file : string) (s : State)
    (Hload : PluginLoad file ∈ events (loadPackageStructure E packageFormat s)
             ∨ PluginLoad file ∈ events (loadPackage E packageFormat packagePath s)
             ∨ PluginLoad file ∈ events (listPackages E packageFormat packageRoot s)) :
  ∃ dir, dir ∈ libraryPaths E
         ∧ advertises E packageFormat (pluginDirectory E dir) file.
Proof.
  apply PluginLoad_in_discovery.
  destruct Hload as [Hin|[Hin|Hin]].
  - by rewrite loadPackageStructure_events in Hin.
  - by apply loadPackage_events in Hin as [?|?].
  - apply listPackages_events in Hin as [?|Hin]; [done|].
    apply list_elem_of_In, in_flat_map in Hin as (d & _ & Hd).
    unfold listDirEvents in Hd. simpl in Hd.
    destruct Hd as [Hd|[Hd|[]]]; [discriminate|].
    by destruct (indexFile E _).
Qed.

(** X10. With no handler cached for the reserved format, no module to
    load for it and no package from the hook, [loadPackage] for
    [KPackage/Generic] returns a valid package, its path unset, on a newly
    created built-in generic structure, which is then the cached one. *)
Theorem generic_package_without_override (E : Env) (s : State)
    (Hmiss : cachedStructure s genericFormat = None)
    (Hno : noModule E genericFormat)
    (Hhook : isDefaultLoader (this s) = true
             ∨ hasValidStructure (internalLoadPackage (this s) genericFormat) = false) :
  let c := loadPackage E genericFormat "" s in
  result c = Package_of (next s)
  ∧ heap (after c) !! next s = Some (GenericPackage E)
  ∧ cachedStructure (after c) genericFormat = Some (next s).
Proof.
  cbv zeta.
  pose proof (loadPackage_without_hook E genericFormat "" s Hhook) as H.
  cbv zeta in H. simpl isEmpty in H. cbv iota in H.
  pose proof (loadPackageStructure_result_noModule E genericFormat s Hno) as Hres.
  rewrite Hmiss in Hres. simpl in Hres.
  assert (Hafter : after (loadPackage E genericFormat "" s)
                   = after (loadPackageStructure E genericFormat s))
    by (by rewrite H).
  assert (Hresult : result (loadPackage E genericFormat "" s) = Package_of (next s)).
  { rewrite H. unfold result at 1. simpl. by rewrite Hres. }
  rewrite Hafter. split; [done|]. split.
  - rewrite loadPackageStructure_heap, instantiate_after_noModule by done.
    rewrite cachedOrGeneric_after, Hmiss. run_monad. apply lookup_insert_eq.
  - by rewrite cachedStructure_after_call.
Qed.

End ResultProperties.

Lemma fresh_next_fresh : fresh_next Sample.fresh.
Proof. intros a [obj Hobj]. simpl in Hobj. by rewrite lookup_empty in Hobj. Qed.

(** X5 on two calls for an indexed plugin: the handler the first call
    created is still on the heap after the second call has run. *)
Lemma operations_keep_handlers_witness :
  let E := Sample.oneIndexed (Creates "foo/") in
  let s1 := after (loadPackageStructure E "foo.bar" Sample.fresh) in
  heap (after (loadPackageStructure E "foo.bar" s1)) !! 0
  = Some {| origin := FromPlugin "foo.so"; declaredRoot := "foo/" |}.
Proof.
  cbv zeta.
  pose proof (operations_keep_handlers (Sample.oneIndexed (Creates "foo/"))
                "foo.bar" "" "" Sample.fresh fresh_next_fresh) as H0.
  apply Forall_cons in H0 as [[Hfresh1 _] _].
  pose proof (operations_keep_handlers (Sample.oneIndexed (Creates "foo/"))
                "foo.bar" "" "" _ Hfresh1) as H1.
  apply Forall_cons in H1 as [[_ Hkeep] _].
  apply Hkeep. vm_compute. reflexivity.
Defined.

(** X7 on the reserved format with nothing installed: both calls return
    the same generic structure. *)
Lemma result_stable_without_module_witness :
  let E := Sample.nothingInstalled in
  let first := loadPackageStructure E genericFormat Sample.fresh in
  let second := loadPackageStructure E genericFormat (after first) in
  result first = Some 0 ∧ result second = Some 0
  ∧ heap (after second) = heap (after first).
Proof.
  cbv zeta.
  destruct (result_stable_without_module Sample.nothingInstalled genericFormat
              Sample.fresh (or_introl eq_refl)) as (Hfirst & Hsecond & Hheap & _).
  split; [exact Hfirst|]. split; [|exact Hheap].
  rewrite Hsecond. exact Hfirst.
Defined.

(** X8 on a format that the only index does not list. *)
Lemma unknown_format_unresolved_witness :
  let E := Sample.oneIndexed (Creates "foo/") in
  result (loadPackageStructure E "other" Sample.fresh) = None
  ∧ result (loadPackage E "other" "" Sample.fresh) = Package_invalid.
Proof.
  cbv zeta.
  assert (Hnone : ∀ dir file, dir ∈ libraryPaths (Sample.oneIndexed (Creates "foo/")) →
            ¬ advertises (Sample.oneIndexed (Creates "foo/")) "other"
                (pluginDirectory (Sample.oneIndexed (Creates "foo/")) dir) file).
  { intros dir file ->%list_elem_of_singleton (obj & Hobj & _ & Hid).
    apply list_elem_of_singleton in Hobj as ->. discriminate Hid. }
  destruct (unknown_format_unresolved (Sample.oneIndexed (Creates "foo/")) "other" ""
              Sample.fresh eq_refl eq_refl Hnone (or_intror eq_refl))
    as (Hnull & _ & _ & Hinvalid).
  split; [exact Hnull|exact Hinvalid].
Defined.

(** X9 on the indexed plugin: the module loaded is the one the index
    lists for [foo.bar]. *)
Lemma only_advertised_modules_loaded_witness :
  let E := Sample.oneIndexed (Creates "foo/") in
  ∃ dir, dir ∈ libraryPaths E
         ∧ advertises E "foo.bar" (pluginDirectory E dir) "foo.so".
Proof.
  cbv zeta.
  apply (only_advertised_modules_loaded (Sample.oneIndexed (Creates "foo/"))
           "foo.bar" "" "" "foo.so" Sample.fresh).
  left. vm_compute. right. right. left.
Defined.

(** X10 with nothing installed. *)
Lemma generic_package_without_override_witness :
  result (loadPackage Sample.nothingInstalled genericFormat "" Sample.fresh)
  = {| pkg_structure := Some 0; pkg_path := "" |}.
Proof.
  destruct (generic_package_without_override Sample.nothingInstalled Sample.fresh
              eq_refl (or_introl eq_refl) (or_intror eq_refl)) as (Hres & _).
  exact Hres.
Defined.

(** ** The package [loadPackage] returns, and what [listPackages] lists *)

Section PackageProperties.
Context `{K : KCoreAddons}.

(** X11. The package [loadPackage] returns is either exactly [Package()]
    or a valid one; a valid one carries the path asked for whenever that
    path is not empty, and its structure is the hook's or the one
    [loadPackageStructure] resolves. *)
Theorem loadPackage_result_shape (E : Env) (packageFormat packagePath : string)
    (s : State) :
  let r := result (loadPackage E packageFormat packagePath s) in
  (hasValidStructure r = false → r = Package_invalid)
  ∧ (hasValidStructure r = true → isEmpty packagePath = false →
     pkg_path r = packagePath)
  ∧ (hasValidStructure r = true →
     pkg_structure r = pkg_structure (internalLoadPackage (this s) packageFormat)
     ∨ pkg_structure r = result (loadPackageStructure E packageFormat s)).
Proof.
  cbv zeta.
  assert (Hstd :
    isDefaultLoader (this s) = true
    ∨ hasValidStructure (internalLoadPackage (this s) packageFormat) = false →
    result (loadPackage E packageFormat packagePath s)
    = if isEmpty packageFormat then Package_invalid
      else match result (loadPackageStructure E packageFormat s) with
           | Some a => if isEmpty packagePath then Package_of a
                       else setPath (Package_of a) packagePath
           | None => Package_invalid
           end).
  { intros Hhook.
    pose proof (loadPackage_without_hook E packageFormat packagePath s Hhook) as H.
    cbv zeta in H. by destruct (isEmpty packageFormat); rewrite H. }
  assert (Hshape : ∀ r : Package,
    r = (if isEmpty packageFormat then Package_invalid
         else match result (loadPackageStructure E packageFormat s) with
              | Some a => if isEmpty packagePath then Package_of a
                          else setPath (Package_of a) packagePath
              | None => Package_invalid
              end) →
    (hasValidStructure r = false → r = Package_invalid)
    ∧ (hasValidStructure r = true → isEmpty packagePath = false →
       pkg_path r = packagePath)
    ∧ (hasValidStructure r = true →
       pkg_structure r = pkg_structure (internalLoadPackage (this s) packageFormat)
       ∨ pkg_structure r = result (loadPackageStructure E packageFormat s))).
  { intros r ->. destruct (isEmpty packageFormat); [done|].
    destruct (result (loadPackageStructure E packageFormat s)); [|done].
    destruct (isEmpty packagePath); split_and!; simpl; intros; try done; by right. }
  destruct (isDefaultLoader (this s)) eqn:Hd;
    [|destruct (hasValidStructure (internalLoadPackage (this s) packageFormat)) eqn:Hv].
  - apply Hshape, Hstd. by left.
  - assert (Hr : result (loadPackage E packageFormat packagePath s)
                 = if isEmpty packagePath
                   then internalLoadPackage (this s) packageFormat
                   else setPath (internalLoadPackage (this s) packageFormat)
                          packagePath).
    { unfold loadPackage. unfold bind at 1. rewrite Hd, Hv. by run_monad. }
    assert (Hsp : ∀ p q, hasValidStructure (setPath p q) = hasValidStructure p)
      by done.
    rewrite Hr. destruct (isEmpty packagePath); rewrite ?Hsp; split_and!; intros;
      try congruence; try done; by left.
  - apply Hshape, Hstd. by right.
Qed.

Lemma contains_true (l : list string) (x : string) :
  contains l x = true ↔ x ∈ l.
Proof.
  unfold contains. rewrite existsb_exists. split.
  - intros (y & Hin & ->%String.eqb_eq). by apply list_elem_of_In.
  - intros Hin. exists x. split; [by apply list_elem_of_In|apply String.eqb_refl].
Qed.

(** X12. A record is in the listing exactly when some data location's
    directory provides it: as a valid record of the index when the path
    the code tests for that directory, the directory string immediately
    followed by [kpluginindex.json], exists; otherwise as a valid
    descriptor found by the scan that declares the format among its
    service types, or any valid descriptor when the format is empty.  So
    every record listed is valid. *)
Theorem listed_iff (E : Env) (packageFormat packageRoot : string) (s : State)
    (m : KPluginMetaData) :
  m ∈ result (listPackages E packageFormat packageRoot s)
  ↔ ∃ datadir, datadir ∈ dataLocations E
      ∧ let plugindir :=
          datadir +:+ "/" +:+ actualRootOf E packageFormat packageRoot s in
        match indexFile E (plugindir +:+ kpluginindex) with
        | Some plugins =>
            ∃ obj, obj ∈ plugins ∧ m = metaFromJson obj "" (json_FileName obj)
                   ∧ isValid m = true
        | None =>
            m ∈ desktopFiles E plugindir ∧ isValid m = true
            ∧ (isEmpty packageFormat = true ∨ packageFormat ∈ serviceTypes m)
        end.
Proof.
  pose proof (listPackages_run E packageFormat packageRoot s) as Hrun.
  cbv zeta in Hrun. rewrite Hrun. unfold result. simpl. clear Hrun.
  set (root := actualRootOf E packageFormat packageRoot s).
  rewrite list_elem_of_In, in_flat_map. unfold packageDirectories.
  split.
  - intros (d & (datadir & <- & Hdir)%in_map_iff & Hm).
    exists datadir. split; [by apply list_elem_of_In|]. cbv zeta.
    unfold listDir in Hm. apply list_elem_of_In in Hm.
    destruct (indexFile E ((datadir +:+ "/" +:+ root) +:+ kpluginindex)).
    + unfold fromIndex in Hm. apply list_elem_of_filter in Hm as [Hv Hm].
      apply list_elem_of_In, in_map_iff in Hm as (obj & <- & Hobj).
      exists obj. split; [by apply list_elem_of_In|done].
    + unfold fromScan in Hm. apply list_elem_of_filter in Hm as [Hv Hm].
      apply andb_true_iff in Hv as [Hv Hf]. split; [done|]. split; [done|].
      apply orb_true_iff in Hf as [?|?%contains_true]; [by left|by right].
  - intros (datadir & Hdir & Hm). cbv zeta in Hm.
    exists (datadir +:+ "/" +:+ root). split.
    { apply (in_map (λ datadir, datadir +:+ "/" +:+ root)).
      by apply list_elem_of_In. }
    unfold listDir. apply list_elem_of_In.
    destruct (indexFile E ((datadir +:+ "/" +:+ root) +:+ kpluginindex)).
    + destruct Hm as (obj & Hobj & -> & Hv).
      unfold fromIndex. apply list_elem_of_filter. split; [done|].
      apply list_elem_of_In.
      apply (in_map (λ obj, metaFromJson obj "" (json_FileName obj))).
      by apply list_elem_of_In.
    + destruct Hm as (Hin & Hv & Hf).
      unfold fromScan. apply list_elem_of_filter. split; [|done].
      rewrite Hv. simpl. apply orb_true_iff.
      destruct Hf as [?|?%contains_true]; [by left|by right].
Qed.

(** X13. With a root given, [listPackages] leaves the loader as it is,
    cache included, and makes no access except, for every data location
    in order, the index check of its directory followed by the index read
    or the directory iteration: no plugin directory is probed and no
    module is loaded. *)
Theorem explicit_root_leaves_loader (E : Env) (packageFormat packageRoot : string)
    (s : State) (Hroot : isEmpty packageRoot = false) :
  let c := listPackages E packageFormat packageRoot s in
  after c = s
  ∧ events c
    = flat_map (listDirEvents E)
        (map (λ datadir, datadir +:+ "/" +:+ packageRoot) (dataLocations E)).
Proof.
  cbv zeta.
  pose proof (listPackages_run E packageFormat packageRoot s) as Hrun.
  cbv zeta in Hrun. rewrite Hrun. unfold actualRootOf, packageDirectories.
  by rewrite Hroot, Hroot.
Qed.

End PackageProperties.

(** X13 on the clock installation, asked with the root [plasma/]. *)
Lemma explicit_root_leaves_loader_witness :
  let c := listPackages (Sample.clockInstalled false) "Plasma/Applet" "plasma/"
             Sample.fresh in
  after c = Sample.fresh
  ∧ events c = [IndexExists "/usr/share/plasma/kpluginindex.json";
                DirIterate "/usr/share/plasma/"].
Proof.
  exact (explicit_root_leaves_loader (Sample.clockInstalled false) "Plasma/Applet"
           "plasma/" Sample.fresh eq_refl).
Defined.

(** ** The destructor *)

Lemma deleteStructures_None (l : list (string * option nat))
    (h : gmap nat PackageStructure) (a : nat) :
  h !! a = None →
  fold_left (λ h entry, deleteStructure entry.2 h) l h !! a = None.
Proof.
  revert h. induction l as [|[f wp] l IH]; intros h Ha; simpl; [done|].
  apply IH. destruct wp as [b|]; simpl; [|done].
  destruct (decide (b = a)) as [->|Hne].
  - apply lookup_delete_eq.
  - by rewrite lookup_delete_ne.
Qed.

Lemma deleteStructures_lookup (l : list (string * option nat))
    (h : gmap nat PackageStructure) (a : nat) :
  (Exists (λ entry, entry.2 = Some a) l →
   fold_left (λ h entry, deleteStructure entry.2 h) l h !! a = None)
  ∧ (¬ Exists (λ entry, entry.2 = Some a) l →
     fold_left (λ h entry, deleteStructure entry.2 h) l h !! a = h !! a).
Proof.
  revert h. induction l as [|[f wp] l IH]; intros h.
  - split; [by intros ?%Exists_nil|done].
  - destruct (IH (deleteStructure wp h)) as [IHin IHout]. simpl. split.
    + intros [Hwp|Hrest]%Exists_cons.
      * simpl in Hwp. subst wp. apply deleteStructures_None, lookup_delete_eq.
      * by apply IHin.
    + intros Hnot. rewrite IHout.
      * destruct wp as [b|]; simpl; [|done].
        rewrite lookup_delete_ne; [done|].
        intros ->. apply Hnot. by left.
      * intros Hrest. apply Hnot. by right.
Qed.

Lemma PackageLoader_delete_lookup (s : State) (a : nat) :
  ((∃ f, structures (this s) !! f = Some (Some a)) →
   PackageLoader_delete s !! a = None)
  ∧ ((∀ f, structures (this s) !! f ≠ Some (Some a)) →
     PackageLoader_delete s !! a = heap s !! a).
Proof.
  unfold PackageLoader_delete.
  destruct (deleteStructures_lookup (map_to_list (structures (this s))) (heap s) a)
    as [Hin Hout].
  split.
  - intros [f Hf]. apply Hin.
    apply Exists_exists. exists (f, Some a). split; [|done].
    by apply elem_of_map_to_list.
  - intros Hnone. apply Hout.
    intros ([f wp] & Hin' & Hwp)%Exists_exists. simpl in Hwp. subst wp.
    apply elem_of_map_to_list in Hin'. by apply (Hnone f).
Qed.

(** X14. The destructor deletes every structure an entry of the cache
    points to and no other: a handler that no entry points to is left on
    the heap. *)
Theorem destructor_deletes_cached_only (s : State) (a : nat) :
  ((∃ f, structures (this s) !! f = Some (Some a)) →
   PackageLoader_delete s !! a = None)
  ∧ ((∀ f, structures (this s) !! f ≠ Some (Some a)) →
     PackageLoader_delete s !! a = heap s !! a).
Proof. apply PackageLoader_delete_lookup. Qed.

Section Leak.
Context `{K : KCoreAddons}.

(** X15. A handler that was cached under a format only, and that a call
    for the format has replaced in the cache, is not deleted when the
    loader is destroyed. *)
Theorem replaced_handler_outlives_loader (E : Env) (packageFormat : string)
    (s : State) (a : nat)
    (Hfresh : fresh_next s)
    (Hcached : cachedStructure s packageFormat = Some a)
    (Honly : ∀ f, f ≠ packageFormat → structures (this s) !! f ≠ Some (Some a))
    (Hreplaced : result (loadPackageStructure E packageFormat s) ≠ Some a) :
  PackageLoader_delete (after (loadPackageStructure E packageFormat s)) !! a
  = heap s !! a
  ∧ is_Some (heap s !! a).
Proof.
  pose proof (cachedStructure_live s packageFormat a Hcached) as [obj Hobj].
  split; [|by eexists].
  destruct (keeps_loadPackageStructure E packageFormat s)
    as (_ & _ & Hother & _ & _ & Hheap).
  destruct (Hheap Hfresh) as [_ Hsub].
  destruct (PackageLoader_delete_lookup
              (after (loadPackageStructure E packageFormat s)) a) as [_ Hleft].
  rewrite Hleft.
  - rewrite Hobj. by apply Hsub.
  - intros f Hf. destruct (decide (f = packageFormat)) as [->|Hne].
    + pose proof (loadPackageStructure_stores E packageFormat s) as Hst.
      cbv zeta in Hst. rewrite Hst in Hf. congruence.
    + rewrite Hother in Hf by done. by apply (Honly f).
Qed.

End Leak.

(** X15 on two calls for an indexed plugin: after the second call the
    handler of the first one is out of the destructor's reach. *)
Lemma replaced_handler_outlives_loader_witness :
  let E := Sample.oneIndexed (Creates "foo/") in
  let s1 := after (loadPackageStructure E "foo.bar" Sample.fresh) in
  PackageLoader_delete (after (loadPackageStructure E "foo.bar" s1)) !! 0
  = Some {| origin := FromPlugin "foo.so"; declaredRoot := "foo/" |}.
Proof.
  cbv zeta.
  set (E := Sample.oneIndexed (Creates "foo/")).
  set (s1 := after (loadPackageStructure E "foo.bar" Sample.fresh)).
  assert (Hfresh : fresh_next s1).
  { destruct (keeps_loadPackageStructure E "foo.bar" Sample.fresh)
      as (_ & _ & _ & _ & _ & Hk).
    by destruct (Hk fresh_next_fresh). }
  assert (Honly : ∀ f, f ≠ "foo.bar" → structures (this s1) !! f ≠ Some (Some 0)).
  { intros f Hf.
    destruct (keeps_loadPackageStructure E "foo.bar" Sample.fresh)
      as (_ & _ & Hother & _).
    subst s1. rewrite Hother by done. simpl. by rewrite lookup_empty. }
  destruct (replaced_handler_outlives_loader E "foo.bar" s1 0 Hfresh) as [Hleft _].
  - vm_compute. reflexivity.
  - exact Honly.
  - vm_compute. discriminate.
  - rewrite Hleft. vm_compute. reflexivity.
Defined.

(** ** More on the loader pointer *)

(** X16. [setPackageLoader] with a null pointer never changes anything;
    with a loader it changes the pointer alone, and only when none is
    installed. *)
Theorem setPackageLoader_effect (loader : option nat) (p : Process) :
  setPackageLoader None p = p
  ∧ loaders (setPackageLoader loader p) = loaders p
  ∧ nextLoader (setPackageLoader loader p) = nextLoader p
  ∧ s_packageTrader (setPackageLoader loader p)
    = match s_packageTrader p with
      | Some installed => Some installed
      | None => loader
      end.
Proof.
  unfold setPackageLoader. destruct p as [[installed|] objects n]; simpl; done.
Qed.

(** X17. [self()] returns the installed loader without creating one, so
    the loader an application sets first is the one every later [self()]
    returns; and when it has to create the default loader, that loader is
    a new object with an empty cache, and a second [self()] returns it
    again and changes nothing. *)
Theorem self_returns_installed (p : Process) (a : nat) :
  (s_packageTrader p = None →
   self (setPackageLoader (Some a) p) = (a, setPackageLoader (Some a) p))
  ∧ (s_packageTrader p = None →
     (self p).1 = nextLoader p
     ∧ loaders (self p).2 !! (self p).1
       = Some {| structures := ∅; isDefaultLoader := true;
                 internalLoadPackage := base_internalLoadPackage |}
     ∧ ∀ b, b ≠ nextLoader p → loaders (self p).2 !! b = loaders p !! b)
  ∧ self (self p).2 = self p.
Proof.
  split_and!.
  - intros Hnone. apply self_installed. unfold setPackageLoader. by rewrite Hnone.
  - intros Hnone. unfold self. rewrite Hnone. simpl. split; [done|]. split.
    + apply lookup_insert_eq.
    + intros b Hb. by rewrite lookup_insert_ne.
  - unfold self at 2 3. destruct (s_packageTrader p) as [b|] eqn:Hp; simpl.
    + by apply self_installed.
    + by apply self_installed.
Qed.

(** X17 on the process before any call. *)
Lemma self_returns_installed_witness :
  self (setPackageLoader (Some 5) Sample.unset)
  = (5, setPackageLoader (Some 5) Sample.unset)
  ∧ (self Sample.unset).1 = 0.
Proof.
  destruct (self_returns_installed Sample.unset 5) as (Hset & Hdefault & _).
  split; [exact (Hset eq_refl)|exact (proj1 (Hdefault eq_refl))].
Defined.

(** ** [parentAppConstraint] and [knownCategories] *)

Lemma append_char_inj (s1 s2 : string) (c : ascii) :
  s1 +:+ String c "" = s2 +:+ String c "" → s1 = s2.
Proof.
  revert s2. induction s1 as [|a r IH]; intros [|b t]; simpl; try done.
  - intros [= _ H]. by destruct t.
  - intros [= _ H]. by destruct r.
  - intros [= -> H]. f_equal. by apply IH.
Qed.

(** X18. The constraint is empty exactly when no parent application is
    named and there is no application instance; a named parent
    application can be read back from its constraint; and the constraint
    of a named parent is never the one built from the running
    application's name. *)
Theorem parentAppConstraint_distinguishes (app app' : option string)
    (parentApp parentApp' : string) :
  (parentAppConstraint app parentApp = "" ↔ parentApp = "" ∧ app = None)
  ∧ (isEmpty parentApp = false → isEmpty parentApp' = false →
     parentAppConstraint app parentApp = parentAppConstraint app' parentApp' →
     parentApp = parentApp')
  ∧ (isEmpty parentApp = false →
     parentAppConstraint app parentApp ≠ parentAppConstraint app' "").
Proof.
  unfold parentAppConstraint. split_and!.
  - destruct parentApp as [|c r]; simpl.
    + destruct app; simpl; [|done]. split; [done|]. by intros [_ ?].
    + split; [done|]. by intros [? _].
  - intros -> ->. simpl. intros H. injection H as H.
    by apply append_char_inj in H.
  - intros ->. destruct app'; simpl; done.
Qed.

Lemma toLower_ascii_idemp (c : ascii) :
  toLower_ascii (toLower_ascii c) = toLower_ascii c.
Proof. destruct c as [[] [] [] [] [] [] [] []]; reflexivity. Qed.

Lemma toLower_idemp (s : string) : toLower (toLower s) = toLower s.
Proof.
  induction s as [|c r IH]; simpl; [done|]. by rewrite toLower_ascii_idemp, IH.
Qed.

Lemma elem_of_insert_lowered (names : list string) (custom : gset string)
    (c : string) :
  c ∈ fold_left (λ categories name, {[toLower name]} ∪ categories) names custom
  ↔ c ∈ custom ∨ ∃ name, name ∈ names ∧ c = toLower name.
Proof.
  revert custom. induction names as [|n names IH]; intros custom; simpl.
  - split; [by left|]. intros [?|(name & Hin & _)]; [done|].
    by apply not_elem_of_nil in Hin.
  - rewrite IH, elem_of_union, elem_of_singleton. split.
    + intros [[->|?]|(name & Hin & ->)].
      * right. exists n. split; [left|done].
      * by left.
      * right. exists name. split; [by right|done].
    + intros [?|(name & [->|Hin]%elem_of_cons & ->)].
      * left. by right.
      * left. by left.
      * right. by exists name.
Qed.

(** X19. The known categories contain every custom category as it was
    given and every built-in name in lower case only: a known category
    that is not a custom one is its own lower-case form, so a built-in
    name is found under its lower-case spelling and, unless added as a
    custom category, not under the capitalised one of the source. *)
Theorem knownCategories_lower_case (s_customCategories : gset string) (c : string) :
  (c ∈ s_customCategories → c ∈ knownCategories s_customCategories)
  ∧ (c ∈ categoryNames → toLower c ∈ knownCategories s_customCategories)
  ∧ (c ∈ knownCategories s_customCategories →
     c ∈ s_customCategories ∨ toLower c = c)
  ∧ (c ∈ categoryNames → c ∈ knownCategories s_customCategories →
     c ∈ s_customCategories).
Proof.
  unfold knownCategories. split_and!.
  - intros Hc. apply elem_of_insert_lowered. by left.
  - intros Hc. apply elem_of_insert_lowered. right. by exists c.
  - intros [?|(name & _ & ->)]%elem_of_insert_lowered; [by left|].
    right. apply toLower_idemp.
  - intros Hname [?|(name & _ & Hlow)]%elem_of_insert_lowered; [done|].
    exfalso.
    assert (Hfix : toLower c = c) by (rewrite Hlow; apply toLower_idemp).
    revert Hfix. clear Hlow.
    repeat (apply elem_of_cons in Hname as [->|Hname]; [by vm_compute|]).
    by apply not_elem_of_nil in Hname.
Qed.

(** ** Listing with a structure already cached *)

Section CachedListing.
Context `{K : KCoreAddons}.

(** X20. When a live structure is cached for the format, [listPackages]
    without a root takes the root that structure declares (the format
    when it declares none), probes no plugin directory and loads no
    module: its only accesses are those of the listing itself.  The heap
    is left as it is and the structure stays the cached one. *)
Theorem listing_from_cached_structure (E : Env) (packageFormat : string)
    (s : State) (a : nat) (obj : PackageStructure)
    (Hcached : cachedStructure s packageFormat = Some a)
    (Hobj : heap s !! a = Some obj) :
  let root := if isEmpty (declaredRoot obj) then packageFormat
              else declaredRoot obj in
  let dirs := map (λ datadir, datadir +:+ "/" +:+ root) (dataLocations E) in
  let c := listPackages E packageFormat "" s in
  result c = flat_map (listDir E packageFormat) dirs
  ∧ events c = flat_map (listDirEvents E) dirs
  ∧ heap (after c) = heap s
  ∧ cachedStructure (after c) packageFormat = Some a.
Proof.
  cbv zeta.
  pose proof (structureForRoot_run E packageFormat s) as Hs. rewrite Hcached in Hs.
  pose proof (rootFromStructure_run E packageFormat s) as Hr. cbv zeta in Hr.
  rewrite Hs in Hr. unfold result at 1, after at 1 2 3, events at 1 in Hr.
  simpl in Hr. rewrite Hobj in Hr. simpl in Hr.
  pose proof (listPackages_run E packageFormat "" s) as Hrun. cbv zeta in Hrun.
  unfold actualRootOf, packageDirectories in Hrun. simpl isEmpty in Hrun.
  cbv iota in Hrun. rewrite Hr in Hrun. rewrite Hrun.
  unfold result, after, events. simpl. split_and!; try done.
  unfold cachedStructure. simpl. rewrite lookup_insert_eq, Hobj.
  by rewrite decide_True.
Qed.

End CachedListing.

(** X20 on two listings of the reserved format with nothing installed:
    the first one caches the generic structure, the second one only
    probes the package directory. *)
Lemma listing_from_cached_structure_witness :
  let E := Sample.nothingInstalled in
  let s1 := after (listPackages E genericFormat "" Sample.fresh) in
  events (listPackages E genericFormat "" s1)
  = [IndexExists "/usr/share/kpackage/generic/kpluginindex.json";
     DirIterate "/usr/share/kpackage/generic/"]
  ∧ cachedStructure (after (listPackages E genericFormat "" s1)) genericFormat
    = Some 0.
Proof.
  cbv zeta.
  destruct (listing_from_cached_structure Sample.nothingInstalled genericFormat
              (after (listPackages Sample.nothingInstalled genericFormat ""
                        Sample.fresh))
              0 (GenericPackage Sample.nothingInstalled))
    as (_ & Hev & _ & Hc).
  - vm_compute. reflexivity.
  - vm_compute. reflexivity.
  - split; [exact Hev|exact Hc].
Defined.

(** ** The index path of [listPackages] *)

(** C8, on the code: line 220 appends [kpluginindex.json] to the
    directory string without a separator.  With the root [plasma] the
    directory [/usr/share/plasma] holds an index file, yet the path tested
    is [/usr/share/plasmakpluginindex.json] and the directory is
    scanned. *)
Theorem indexed_directory_scanned :
  let E := Sample.plasmaIndexed in
  let c := listPackages E "Plasma/Applet" "plasma" Sample.fresh in
  indexFile E (indexIn "/" "/usr/share/plasma") = Some [Sample.clockRecord]
  ∧ events c = [IndexExists "/usr/share/plasmakpluginindex.json";
                DirIterate "/usr/share/plasma"]
  ∧ ¬ IndexedDirectoryNeverScanned E "Plasma/Applet" "plasma" Sample.fresh.
Proof.
  cbv zeta. split; [reflexivity|]. split; [vm_compute; reflexivity|].
  intros [_ Hlist].
  apply (Hlist "/usr/share/plasma").
  - eexists. reflexivity.
  - vm_compute. right. left.
Qed.

(** C10, on the code: for the same reason the valid record of the index
    in [/usr/share/plasma] is left out of the listing, which is what the
    filtered scan of the directory gives. *)
Theorem indexed_record_left_out :
  let E := Sample.plasmaIndexed in
  let c := listPackages E "Plasma/Applet" "plasma" Sample.fresh in
  indexFile E (indexIn "/" "/usr/share/plasma") = Some [Sample.clockRecord]
  ∧ @isValid Sample.addons Sample.clockMeta = true
  ∧ result c = []
  ∧ ¬ IndexedRecordsAllListed E "Plasma/Applet" "plasma" Sample.fresh.
Proof.
  cbv zeta. split; [reflexivity|]. split; [reflexivity|].
  split; [vm_compute; reflexivity|].
  intros Hall.
  specialize (Hall "/usr/share" [Sample.clockRecord] Sample.clockRecord).
  assert (Hin : Sample.clockMeta
                ∈ result (listPackages Sample.plasmaIndexed "Plasma/Applet"
                            "plasma" Sample.fresh)).
  { apply Hall; [left|reflexivity|left|reflexivity]. }
  vm_compute in Hin. inversion Hin.
Qed.

Lemma endsWith_suffix (a b : string) (c : ascii) :
  endsWith b c = true → endsWith (a +:+ b) c = true.
Proof.
  intros Hb. induction a as [|x r IH]; simpl; [done|].
  destruct (r +:+ b) eqn:Hrb; [|done].
  destruct r; [|done]. change (b = "") in Hrb. rewrite Hrb in Hb. done.
Qed.

Section SlashRoot.
Context `{K : KCoreAddons}.

(** X22. When the root [listPackages] lists under ends with [/], a
    listed directory that holds [kpluginindex.json] is read through that
    index and never iterated, and every valid record of the index is in
    the result whatever service types it declares. *)
Theorem slash_terminated_root_uses_index (E : Env)
    (packageFormat packageRoot : string) (s : State) (datadir : string)
    (plugins : list QJsonObject)
    (Hslash : endsWith (actualRootOf E packageFormat packageRoot s) "/" = true)
    (Hlocation : datadir ∈ dataLocations E)
    (Hindex : indexFile E
                (indexIn "/" (datadir +:+ "/"
                              +:+ actualRootOf E packageFormat packageRoot s))
              = Some plugins) :
  let plugindir := datadir +:+ "/" +:+ actualRootOf E packageFormat packageRoot s in
  let c := listPackages E packageFormat packageRoot s in
  IndexRead (plugindir +:+ kpluginindex) ∈ events c
  ∧ (DirIterate plugindir ∉ events c)
  ∧ ∀ obj, obj ∈ plugins →
      isValid (metaFromJson obj "" (json_FileName obj)) = true →
      metaFromJson obj "" (json_FileName obj) ∈ result c.
Proof.
  cbv zeta.
  set (root := actualRootOf E packageFormat packageRoot s) in *.
  assert (Hends : endsWith (datadir +:+ "/" +:+ root) "/" = true).
  { apply endsWith_suffix. by apply (endsWith_suffix "/"). }
  unfold indexIn in Hindex. rewrite Hends in Hindex.
  split; [|split].
  - pose proof (listPackages_run E packageFormat packageRoot s) as Hrun.
    cbv zeta in Hrun. rewrite Hrun. unfold events at 1. simpl.
    apply elem_of_app. right. apply list_elem_of_In, in_flat_map.
    exists (datadir +:+ "/" +:+ root). split.
    + unfold packageDirectories. fold root.
      apply (in_map (λ datadir, datadir +:+ "/" +:+ root)).
      by apply list_elem_of_In.
    + unfold listDirEvents. rewrite Hindex. simpl. right. by left.
  - intros [Hin|Hin]%listPackages_events.
    + by apply DirIterate_not_in_discovery in Hin.
    + apply DirIterate_in_listing in Hin. congruence.
  - intros obj Hobj Hvalid.
    by apply (index_records_unfiltered E packageFormat packageRoot s datadir plugins).
Qed.

End SlashRoot.

(** X22 on the clock installation, listed under the root [plasma/]. *)
Lemma slash_terminated_root_uses_index_witness :
  let c := listPackages (Sample.clockInstalled true) "Plasma/Applet" "plasma/"
             Sample.fresh in
  IndexRead "/usr/share/plasma/kpluginindex.json" ∈ events c
  ∧ (DirIterate "/usr/share/plasma/" ∉ events c)
  ∧ Sample.clockMeta ∈ result c.
Proof.
  cbv zeta.
  destruct (slash_terminated_root_uses_index (Sample.clockInstalled true)
              "Plasma/Applet" "plasma/" Sample.fresh "/usr/share"
              [Sample.clockRecord]) as (Hread & Hscan & Hall).
  - reflexivity.
  - left.
  - reflexivity.
  - split; [exact Hread|]. split; [exact Hscan|].
    apply (Hall Sample.clockRecord); [left|reflexivity].
Defined.
